(** * k2d: the pod <-> container converter (internal/adapter/converter/pod.go)

    A shallow embedding of [ConvertContainerToPod] and
    [ConvertPodSpecToContainerConfiguration] with the helpers they call, and
    the properties of the translation layer proved about it.

    Conventions of the embedding:
    - Go integers ([int32], [int64], [int]) are [Z]; the only arithmetic the
      file performs on them, the nano-CPU product, has its [int64] wrap-around
      written out ([wrap64]).
    - Go [string]s are [string]; [fmt.Sprintf] with [%s] is concatenation and
      with [%d] is the decimal rendering [pretty].
    - Go maps are [gmap]s, a nil-able pointer or map is an [option].
      [for k, v := range m] visits the entries in an order Go leaves open; the
      embedding visits them in the order of [map_to_list].
    - The two objects the forward converter mutates through pointers
      ([containerConfig], [hostConfig]) live in a small heap that the [Go]
      monad threads, together with the trace of calls made on the stores.
    - A run-time panic (index out of range, nil dereference) is an outcome of
      its own, distinct from a returned [error]. *)

From Stdlib Require Import Ascii.
From stdpp Require Import gmap strings list fin_maps pretty.

Local Open Scope Z_scope.

(* ===================================================================== *)
(** ** Errors *)
(* ===================================================================== *)

(** [error] values: the ones collaborators hand out, and the ones
    [fmt.Errorf("<msg>: %w", err)] builds around them. *)
Inductive error : Type :=
  | ErrorNew (msg : string)
  | Errorf (msg : string) (err : error).

(** [err.Error()] *)
Fixpoint Error (e : error) : string :=
  match e with
  | ErrorNew msg => msg
  | Errorf msg err => msg +:+ ": " +:+ Error err
  end.

(** [errors.Unwrap] *)
Definition Unwrap (e : error) : option error :=
  match e with
  | ErrorNew _ => None
  | Errorf _ err => Some err
  end.

(** What a Go function of result type [(T, error)] hands back to its caller
    when the error is the only alternative to a value. *)
Inductive lookup (A : Type) : Type :=
  | Found (a : A)
  | Failed (err : error).
Arguments Found {A} a.
Arguments Failed {A} err.

(** What a call of a Go function ends in: it returns, or it panics. *)
Inductive returned (A : Type) : Type :=
  | Returns (a : A)
  | Panics (msg : string).
Arguments Returns {A} a.
Arguments Panics {A} msg.

Definition index_out_of_range : string :=
  "runtime error: index out of range [0] with length 0".
Definition nil_dereference : string :=
  "runtime error: invalid memory address or nil pointer dereference".

(* ===================================================================== *)
(** ** The Kubernetes side: k8s.io/kubernetes/pkg/apis/core *)
(* ===================================================================== *)

(** [resource.Quantity], seen through the two methods the converter calls;
    both return an [int64]. *)
Record Quantity : Type := {
  MilliValue : Z;
  Value : Z
}.

(** [core.ResourceList = map[ResourceName]resource.Quantity] *)
Abbreviation ResourceList := (gmap string Quantity).

Definition ResourceCPU : string := "cpu".
Definition ResourceMemory : string := "memory".

Record ResourceRequirements : Type := {
  Limits : option ResourceList;
  Requests : option ResourceList
}.

Record ContainerPort : Type := {
  HostPort : Z;
  ContainerPort_ContainerPort : Z;
  Protocol : string
}.

(** [core.ConfigMapKeySelector] and [core.SecretKeySelector]: a
    [LocalObjectReference] name and a key. *)
Record KeySelector : Type := {
  KeySelector_Name : string;
  Key : string
}.

Record EnvVarSource : Type := {
  ConfigMapKeyRef : option KeySelector;
  SecretKeyRef : option KeySelector
}.

Record EnvVar : Type := {
  EnvVar_Name : string;
  EnvVar_Value : string;
  ValueFrom : option EnvVarSource
}.

(** [core.EnvFromSource]: each reference is a [LocalObjectReference], of
    which the name is read. *)
Record EnvFromSource : Type := {
  ConfigMapRef : option string;
  SecretRef : option string
}.

Record ConfigMapVolumeSource : Type := { ConfigMapVolumeSource_Name : string }.
Record SecretVolumeSource : Type := { SecretName : string }.
Record HostPathVolumeSource : Type := { Path : string }.

Record VolumeSource : Type := {
  VolumeSource_ConfigMap : option ConfigMapVolumeSource;
  VolumeSource_Secret : option SecretVolumeSource;
  VolumeSource_HostPath : option HostPathVolumeSource
}.

Record Volume : Type := {
  Volume_Name : string;
  Volume_VolumeSource : VolumeSource
}.

Record VolumeMount : Type := {
  VolumeMount_Name : string;
  MountPath : string
}.

Record PodSecurityContext : Type := {
  RunAsUser : option Z;
  RunAsGroup : option Z
}.

Record SecurityContext : Type := {
  SecurityContext_Privileged : option bool
}.

Record Container : Type := {
  Container_Name : string;
  Container_Image : string;
  Command : list string;
  Args : list string;
  Container_Env : list EnvVar;
  EnvFrom : list EnvFromSource;
  Ports : list ContainerPort;
  VolumeMounts : list VolumeMount;
  Container_Resources : ResourceRequirements;
  Container_SecurityContext : option SecurityContext
}.

Record PodSpec : Type := {
  Containers : list Container;
  Volumes : list Volume;
  PodSpec_RestartPolicy : string;
  PodSpec_SecurityContext : option PodSecurityContext
}.

(** [metav1.NewTime(time.Unix(sec, 0))]: an instant, in whole seconds since
    the epoch. *)
Record Time : Type := { Unix : Z }.

Record ContainerStateRunning : Type := { StartedAt : Time }.

Record ContainerState : Type := {
  Running : option ContainerStateRunning
}.

Record ContainerStatus : Type := {
  ContainerStatus_Name : string;
  ContainerID : string;
  RestartCount : Z;
  Ready : bool;
  Started : option bool;
  State : ContainerState
}.

(** [core.PodPhase] is a string type; its zero value is the empty string. *)
Definition PodRunning : string := "Running".
Definition PodUnknown : string := "Unknown".

Record PodStatus : Type := {
  Phase : string;
  ContainerStatuses : list ContainerStatus
}.

Record TypeMeta : Type := {
  Kind : string;
  APIVersion : string
}.

Record ObjectMeta : Type := {
  ObjectMeta_Name : string;
  CreationTimestamp : Time;
  Namespace : string;
  Annotations : gmap string string
}.

Record Pod : Type := {
  Pod_TypeMeta : TypeMeta;
  Pod_ObjectMeta : ObjectMeta;
  Pod_Spec : PodSpec;
  Pod_Status : PodStatus
}.

(** The resources the stores hold. A secret's [Data] is [map[string][]byte];
    [%s] prints the bytes as text, so both kinds carry strings here. *)
Record ConfigMap : Type := {
  ConfigMap_Name : string;
  ConfigMap_Data : gmap string string
}.

Record Secret : Type := {
  Secret_Name : string;
  Secret_Data : gmap string string
}.

(* ===================================================================== *)
(** ** The Docker side: api/types, api/types/container, go-connections/nat *)
(* ===================================================================== *)

(** [types.Container], the fields the converter reads. *)
Record types_Container : Type := {
  ID : string;
  Names : list string;
  Image : string;
  Created : Z;
  types_Container_State : string;
  Labels : gmap string string
}.

(** [nat.Port] is a string of the form ["<port>/<proto>"]. *)
Abbreviation Port := string (only parsing).

Record PortBinding : Type := {
  HostIP : string;
  PortBinding_HostPort : string
}.

Record Resources : Type := {
  CPUShares : Z;
  MemoryReservation : Z;
  NanoCPUs : Z;
  Memory : Z
}.

Record RestartPolicy : Type := { RestartPolicy_Name : string }.

(** [container.Config] *)
Record Config : Type := {
  Config_Image : string;
  Config_Labels : gmap string string;
  Env : list string;
  ExposedPorts : gset string;
  User : string;
  Entrypoint : list string;
  Cmd : list string
}.

(** [container.HostConfig] *)
Record HostConfig : Type := {
  Binds : list string;
  PortBindings : gmap string (list PortBinding);
  HostConfig_RestartPolicy : RestartPolicy;
  Privileged : bool;
  ExtraHosts : list string;
  HostConfig_Resources : Resources
}.

(** [network.NetworkingConfig]; an [EndpointSettings] is left at its zero
    value by the converter. *)
Record NetworkingConfig : Type := {
  EndpointsConfig : gmap string unit
}.

(** [converter.ContainerConfiguration]: three pointers, nil in the zero
    value. *)
Record ContainerConfiguration : Type := {
  ContainerConfig : option Config;
  ContainerConfiguration_HostConfig : option HostConfig;
  NetworkConfig : option NetworkingConfig
}.

Definition ContainerConfiguration_zero : ContainerConfiguration :=
  {| ContainerConfig := None;
     ContainerConfiguration_HostConfig := None;
     NetworkConfig := None |}.

Definition Resources_zero : Resources :=
  {| CPUShares := 0; MemoryReservation := 0; NanoCPUs := 0; Memory := 0 |}.

Definition Config_zero : Config :=
  {| Config_Image := EmptyString; Config_Labels := ∅; Env := []; ExposedPorts := ∅;
     User := EmptyString; Entrypoint := []; Cmd := [] |}.

Definition HostConfig_zero : HostConfig :=
  {| Binds := []; PortBindings := ∅;
     HostConfig_RestartPolicy := {| RestartPolicy_Name := EmptyString |};
     Privileged := false; ExtraHosts := [];
     HostConfig_Resources := Resources_zero |}.

Definition ResourceRequirements_zero : ResourceRequirements :=
  {| Limits := None; Requests := None |}.

(* ===================================================================== *)
(** ** Field updates (Go assignments through a struct or a pointer) *)
(* ===================================================================== *)

Definition set_Env (v : list string) (c : Config) : Config :=
  {| Config_Image := Config_Image c; Config_Labels := Config_Labels c;
     Env := v; ExposedPorts := ExposedPorts c; User := User c;
     Entrypoint := Entrypoint c; Cmd := Cmd c |}.

Definition set_ExposedPorts (v : gset string) (c : Config) : Config :=
  {| Config_Image := Config_Image c; Config_Labels := Config_Labels c;
     Env := Env c; ExposedPorts := v; User := User c;
     Entrypoint := Entrypoint c; Cmd := Cmd c |}.

Definition set_User (v : string) (c : Config) : Config :=
  {| Config_Image := Config_Image c; Config_Labels := Config_Labels c;
     Env := Env c; ExposedPorts := ExposedPorts c; User := v;
     Entrypoint := Entrypoint c; Cmd := Cmd c |}.

Definition set_Entrypoint (v : list string) (c : Config) : Config :=
  {| Config_Image := Config_Image c; Config_Labels := Config_Labels c;
     Env := Env c; ExposedPorts := ExposedPorts c; User := User c;
     Entrypoint := v; Cmd := Cmd c |}.

Definition set_Cmd (v : list string) (c : Config) : Config :=
  {| Config_Image := Config_Image c; Config_Labels := Config_Labels c;
     Env := Env c; ExposedPorts := ExposedPorts c; User := User c;
     Entrypoint := Entrypoint c; Cmd := v |}.

Definition set_Binds (v : list string) (h : HostConfig) : HostConfig :=
  {| Binds := v; PortBindings := PortBindings h;
     HostConfig_RestartPolicy := HostConfig_RestartPolicy h;
     Privileged := Privileged h; ExtraHosts := ExtraHosts h;
     HostConfig_Resources := HostConfig_Resources h |}.

Definition set_PortBindings (v : gmap string (list PortBinding))
    (h : HostConfig) : HostConfig :=
  {| Binds := Binds h; PortBindings := v;
     HostConfig_RestartPolicy := HostConfig_RestartPolicy h;
     Privileged := Privileged h; ExtraHosts := ExtraHosts h;
     HostConfig_Resources := HostConfig_Resources h |}.

Definition set_RestartPolicy (v : RestartPolicy) (h : HostConfig) : HostConfig :=
  {| Binds := Binds h; PortBindings := PortBindings h;
     HostConfig_RestartPolicy := v;
     Privileged := Privileged h; ExtraHosts := ExtraHosts h;
     HostConfig_Resources := HostConfig_Resources h |}.

Definition set_Privileged (v : bool) (h : HostConfig) : HostConfig :=
  {| Binds := Binds h; PortBindings := PortBindings h;
     HostConfig_RestartPolicy := HostConfig_RestartPolicy h;
     Privileged := v; ExtraHosts := ExtraHosts h;
     HostConfig_Resources := HostConfig_Resources h |}.

Definition set_Resources (v : Resources) (h : HostConfig) : HostConfig :=
  {| Binds := Binds h; PortBindings := PortBindings h;
     HostConfig_RestartPolicy := HostConfig_RestartPolicy h;
     Privileged := Privileged h; ExtraHosts := ExtraHosts h;
     HostConfig_Resources := v |}.

Definition set_CPUShares (v : Z) (r : Resources) : Resources :=
  {| CPUShares := v; MemoryReservation := MemoryReservation r;
     NanoCPUs := NanoCPUs r; Memory := Memory r |}.

Definition set_MemoryReservation (v : Z) (r : Resources) : Resources :=
  {| CPUShares := CPUShares r; MemoryReservation := v;
     NanoCPUs := NanoCPUs r; Memory := Memory r |}.

Definition set_NanoCPUs (v : Z) (r : Resources) : Resources :=
  {| CPUShares := CPUShares r; MemoryReservation := MemoryReservation r;
     NanoCPUs := v; Memory := Memory r |}.

Definition set_Memory (v : Z) (r : Resources) : Resources :=
  {| CPUShares := CPUShares r; MemoryReservation := MemoryReservation r;
     NanoCPUs := NanoCPUs r; Memory := v |}.

Definition set_Phase (v : string) (s : PodStatus) : PodStatus :=
  {| Phase := v; ContainerStatuses := ContainerStatuses s |}.

Definition set_ContainerStatuses (v : list ContainerStatus) (s : PodStatus)
    : PodStatus :=
  {| Phase := Phase s; ContainerStatuses := v |}.

Definition set_Ready (v : bool) (s : ContainerStatus) : ContainerStatus :=
  {| ContainerStatus_Name := ContainerStatus_Name s;
     ContainerID := ContainerID s; RestartCount := RestartCount s;
     Ready := v; Started := Started s; State := State s |}.

Definition set_Started (v : option bool) (s : ContainerStatus) : ContainerStatus :=
  {| ContainerStatus_Name := ContainerStatus_Name s;
     ContainerID := ContainerID s; RestartCount := RestartCount s;
     Ready := Ready s; Started := v; State := State s |}.

Definition set_State_Running (v : option ContainerStateRunning)
    (s : ContainerStatus) : ContainerStatus :=
  {| ContainerStatus_Name := ContainerStatus_Name s;
     ContainerID := ContainerID s; RestartCount := RestartCount s;
     Ready := Ready s; Started := Started s;
     State := {| Running := v |} |}.

Definition set_Status (v : PodStatus) (p : Pod) : Pod :=
  {| Pod_TypeMeta := Pod_TypeMeta p; Pod_ObjectMeta := Pod_ObjectMeta p;
     Pod_Spec := Pod_Spec p; Pod_Status := v |}.

(* ===================================================================== *)
(** ** Library functions *)
(* ===================================================================== *)

(** [strings.TrimPrefix]: [s] without the leading [prefix], or [s] itself
    when it does not start with it. *)
Definition TrimPrefix (s prefix : string) : string :=
  if String.prefix prefix s
  then String.substring (String.length prefix)
                        (String.length s - String.length prefix) s
  else s.

(** [strconv.Itoa], and [%d] in a format. *)
Definition Itoa (n : Z) : string := pretty n.

(** An [int64] result: the value modulo 2^64, in [-2^63, 2^63). *)
Definition wrap64 (z : Z) : Z := (z + 2 ^ 63) `mod` 2 ^ 64 - 2 ^ 63.

(** [nat.NewPort(proto, port)] of go-connections, on a port given in decimal:
    the port has to parse as an unsigned 16-bit number, the protocol is taken
    as it is, and the key reads ["<port>/<proto>"]. *)
Definition NewPort (proto : string) (port : Z) : lookup Port :=
  if bool_decide (0 ≤ port ≤ 65535)
  then Found (Itoa port +:+ "/" +:+ proto)
  else Failed (ErrorNew ("invalid port '" +:+ Itoa port +:+ "'")).

(* ===================================================================== *)
(** ** The stores and the converter *)
(* ===================================================================== *)

(** The two store interfaces the converter consumes. A bind mapping goes
    from a resource-relative file name to the path of that file on the
    host. *)
Record SecretStore : Type := {
  GetSecret : string → lookup Secret;
  GetSecretBinds : Secret → lookup (gmap string string)
}.

Record ConfigMapStore : Type := {
  GetConfigMap : string → lookup ConfigMap;
  GetConfigMapBinds : ConfigMap → lookup (gmap string string)
}.

Record K2dServerConfiguration : Type := {
  ServerIpAddr : string;
  ServerPort : Z
}.

Record DockerAPIConverter : Type := {
  configMapStore : ConfigMapStore;
  secretStore : SecretStore;
  k2dServerConfiguration : K2dServerConfiguration
}.

(** A call made on a store, as recorded in the trace. *)
Inductive StoreCall : Type :=
  | CallGetSecret (name : string)
  | CallGetSecretBinds (name : string)
  | CallGetConfigMap (name : string)
  | CallGetConfigMapBinds (name : string).

(* ===================================================================== *)
(** ** The [Go] monad: the two mutated objects, errors and panics *)
(* ===================================================================== *)

Record Heap : Type := {
  containerConfig : Config;
  hostConfig : HostConfig;
  calls : list StoreCall
}.

(** How a helper of result type [error] (or none) ends: [Ok] is a [nil]
    error, [Err] a returned error, [Panic] a run-time panic. *)
Inductive result (A : Type) : Type :=
  | Ok (a : A)
  | Err (err : error)
  | Panic (msg : string).
Arguments Ok {A} a.
Arguments Err {A} err.
Arguments Panic {A} msg.

Definition Go (A : Type) : Type := Heap → Heap * result A.

#[global] Instance Go_ret : MRet Go := λ A a h, (h, Ok a).

(** [if err := m; err != nil { return err }] followed by [f]: an error or a
    panic of [m] ends the sequence. *)
#[global] Instance Go_bind : MBind Go := λ A B f m h,
  match m h with
  | (h', Ok a) => f a h'
  | (h', Err err) => (h', Err err)
  | (h', Panic msg) => (h', Panic msg)
  end.

(** [return err] *)
Definition throw {A : Type} (err : error) : Go A := λ h, (h, Err err).

Definition panic {A : Type} (msg : string) : Go A := λ h, (h, Panic msg).

(** [*p] and [p.f] on a pointer [p]. *)
Definition deref {A : Type} (p : option A) : Go A :=
  match p with
  | Some a => mret a
  | None => panic nil_dereference
  end.

Definition Heap_modifyConfig (f : Config → Config) (h : Heap) : Heap :=
  {| containerConfig := f (containerConfig h);
     hostConfig := hostConfig h;
     calls := calls h |}.

Definition Heap_modifyHostConfig (f : HostConfig → HostConfig) (h : Heap) : Heap :=
  {| containerConfig := containerConfig h;
     hostConfig := f (hostConfig h);
     calls := calls h |}.

Definition Heap_call (c : StoreCall) (h : Heap) : Heap :=
  {| containerConfig := containerConfig h;
     hostConfig := hostConfig h;
     calls := calls h ++ [c] |}.

Definition modifyConfig (f : Config → Config) : Go unit :=
  λ h, (Heap_modifyConfig f h, Ok tt).

Definition modifyHostConfig (f : HostConfig → HostConfig) : Go unit :=
  λ h, (Heap_modifyHostConfig f h, Ok tt).

(** A store call: its answer, and its entry in the trace. *)
Definition call {A : Type} (c : StoreCall) (answer : lookup A) : Go (lookup A) :=
  λ h, (Heap_call c h, Ok answer).

(** [for _, x := range l { body }] over a slice. *)
Fixpoint forEach {A : Type} (l : list A) (body : A → Go unit) : Go unit :=
  match l with
  | [] => mret tt
  | x :: l' => body x ;; forEach l' body
  end.

(** [for k, v := range m { body }] over a map. *)
Definition forRange {V : Type} (m : gmap string V) (body : string → V → Go unit)
    : Go unit :=
  forEach (map_to_list m) (λ kv, body kv.1 kv.2).

(** [containerConfig.Env = append(containerConfig.Env, entry)] *)
Definition appendEnv (entry : string) : Go unit :=
  modifyConfig (λ c, set_Env (Env c ++ [entry]) c).

(** [hostConfig.Binds = append(hostConfig.Binds, bind)] *)
Definition appendBind (bind : string) : Go unit :=
  modifyHostConfig (λ h, set_Binds (Binds h ++ [bind]) h).

(* ===================================================================== *)
(** ** The field mappers that use no store *)
(* ===================================================================== *)

(** The loop of [setHostPorts] over its two local maps. *)
Fixpoint setHostPorts_loop (ports : list ContainerPort)
    (containerPortMaps : gmap string (list PortBinding))
    (containerExposedPorts : gset string)
    : lookup (gmap string (list PortBinding) * gset string) :=
  match ports with
  | [] => Found (containerPortMaps, containerExposedPorts)
  | port :: ports' =>
    if bool_decide (HostPort port ≠ 0) then
      match NewPort (Protocol port) (ContainerPort_ContainerPort port) with
      | Failed err => Failed err
      | Found containerPort =>
        let hostBinding :=
          {| HostIP := "0.0.0.0";
             PortBinding_HostPort := Itoa (HostPort port) |} in
        setHostPorts_loop ports'
          (<[containerPort := [hostBinding]]> containerPortMaps)
          ({[containerPort]} ∪ containerExposedPorts)
      end
    else setHostPorts_loop ports' containerPortMaps containerExposedPorts
  end.

Definition setHostPorts (ports : list ContainerPort) : Go unit :=
  match setHostPorts_loop ports ∅ ∅ with
  | Failed err => throw err
  | Found (containerPortMaps, containerExposedPorts) =>
    modifyConfig (set_ExposedPorts containerExposedPorts) ;;
    modifyHostConfig (set_PortBindings containerPortMaps)
  end.

Definition setRestartPolicy (restartPolicy : string) : Go unit :=
  if String.eqb restartPolicy "OnFailure" then
    modifyHostConfig (set_RestartPolicy {| RestartPolicy_Name := "on-failure" |})
  else if String.eqb restartPolicy "Never" then
    modifyHostConfig (set_RestartPolicy {| RestartPolicy_Name := "no" |})
  else
    modifyHostConfig (set_RestartPolicy {| RestartPolicy_Name := "always" |}).

Definition setCommandAndArgs (command args : list string) : Go unit :=
  (if bool_decide (0 < length command)%nat
   then modifyConfig (set_Entrypoint command) else mret tt) ;;
  (if bool_decide (0 < length args)%nat
   then modifyConfig (set_Cmd args) else mret tt).

Definition setSecurityContext
    (podSecurityContext : option PodSecurityContext)
    (containerSecurityContext : option SecurityContext) : Go unit :=
  match podSecurityContext with
  | None => mret tt
  | Some podSecurityContext =>
    match RunAsUser podSecurityContext, RunAsGroup podSecurityContext with
    | Some runAsUser, Some runAsGroup =>
      modifyConfig (set_User (Itoa runAsUser +:+ ":" +:+ Itoa runAsGroup))
    | _, _ => mret tt
    end ;;
    match containerSecurityContext with
    | None => mret tt
    | Some containerSecurityContext =>
      match SecurityContext_Privileged containerSecurityContext with
      | Some privileged => modifyHostConfig (set_Privileged privileged)
      | None => mret tt
      end
    end
  end.

(** One turn of the loop over [resources.Requests]. *)
Definition requestsStep (resourceRequirements : Resources)
    (entry : string * Quantity) : Resources :=
  let '(resourceName, quantity) := entry in
  if bool_decide (resourceName = ResourceCPU) then
    set_CPUShares (MilliValue quantity) resourceRequirements
  else if bool_decide (resourceName = ResourceMemory) then
    set_MemoryReservation (Value quantity) resourceRequirements
  else resourceRequirements.

(** One turn of the loop over [resources.Limits]; the product is an [int64]
    product. *)
Definition limitsStep (resourceRequirements : Resources)
    (entry : string * Quantity) : Resources :=
  let '(resourceName, quantity) := entry in
  if bool_decide (resourceName = ResourceCPU) then
    set_NanoCPUs (wrap64 (MilliValue quantity * 1000000)) resourceRequirements
  else if bool_decide (resourceName = ResourceMemory) then
    set_Memory (Value quantity) resourceRequirements
  else resourceRequirements.

(** The [container.Resources] value that [setResourceRequirements] builds. *)
Definition resourceRequirementsOf (resources : ResourceRequirements) : Resources :=
  let resourceRequirements := Resources_zero in
  let resourceRequirements :=
    match Requests resources with
    | Some requests => foldl requestsStep resourceRequirements (map_to_list requests)
    | None => resourceRequirements
    end in
  let resourceRequirements :=
    match Limits resources with
    | Some limits => foldl limitsStep resourceRequirements (map_to_list limits)
    | None => resourceRequirements
    end in
  resourceRequirements.

Definition setResourceRequirements (resources : ResourceRequirements) : Go unit :=
  modifyHostConfig (set_Resources (resourceRequirementsOf resources)).

(* ===================================================================== *)
(** ** Sample inputs *)
(* ===================================================================== *)

Module Sample.

Definition lastAppliedKey : string := "workload.k2d.io/last-applied-configuration".
Definition serviceAccountSecretName : string := "k2d-serviceaccount".
Definition networkName : string := "k2d_net".

(** [path.Join] on two clean elements: the second under the first. *)
Fixpoint pathJoin (dir file : string) : string :=
  match dir with
  | EmptyString => file
  | String c EmptyString =>
    if Ascii.eqb c "/" then String c file else String c ("/" +:+ file)
  | String c dir' => String c (pathJoin dir' file)
  end.

Definition notFound : error := ErrorNew "not found".
Definition noBinds : error := ErrorNew "unable to list the files of the resource".

(** A store with the service-account secret and a secret [db-creds] whose
    bind mappings cannot be produced. *)
Definition secrets : SecretStore :=
  {| GetSecret name :=
       if bool_decide (name = serviceAccountSecretName) then
         Found {| Secret_Name := name; Secret_Data := ∅ |}
       else if bool_decide (name = "db-creds") then
         Found {| Secret_Name := name;
                  Secret_Data := {[ "password" := "hunter2" ]} |}
       else Failed notFound;
     GetSecretBinds secret :=
       if bool_decide (Secret_Name secret = serviceAccountSecretName) then
         Found {[ "token" := "/var/lib/k2d/secrets/k2d-serviceaccount-k2dsec-token" ]}
       else Failed noBinds |}.

(** A store without any secret. *)
Definition noSecrets : SecretStore :=
  {| GetSecret name := Failed notFound;
     GetSecretBinds secret := Failed noBinds |}.

(** A store with one config map, [app-config], of data [{A: 1}]. *)
Definition configMaps : ConfigMapStore :=
  {| GetConfigMap name :=
       if bool_decide (name = "app-config") then
         Found {| ConfigMap_Name := name; ConfigMap_Data := {[ "A" := "1" ]} |}
       else Failed notFound;
     GetConfigMapBinds configMap := Found ∅ |}.

Definition server : K2dServerConfiguration :=
  {| ServerIpAddr := "10.0.0.1"; ServerPort := 6443 |}.

Definition converter : DockerAPIConverter :=
  {| configMapStore := configMaps; secretStore := secrets;
     k2dServerConfiguration := server |}.

Definition converterWithoutServiceAccount : DockerAPIConverter :=
  {| configMapStore := configMaps; secretStore := noSecrets;
     k2dServerConfiguration := server |}.

Definition heap : Heap :=
  {| containerConfig := Config_zero; hostConfig := HostConfig_zero;
     calls := [] |}.

(** The container of the reverse scenario, and one that has no name. *)
Definition web (state : string) : types_Container :=
  {| ID := "4f2a"; Names := ["/web"]; Image := "nginx";
     Created := 1700000000; types_Container_State := state; Labels := ∅ |}.

Definition nameless : types_Container :=
  {| ID := "4f2a"; Names := []; Image := "nginx";
     Created := 1700000000; types_Container_State := "running";
     Labels := ∅ |}.

(** A container that asks for privileges, in a pod without a pod-level
    security context. *)
Definition privilegedContainer : Container :=
  {| Container_Name := "web"; Container_Image := "nginx";
     Command := []; Args := []; Container_Env := []; EnvFrom := [];
     Ports := []; VolumeMounts := [];
     Container_Resources := ResourceRequirements_zero;
     Container_SecurityContext :=
       Some {| SecurityContext_Privileged := Some true |} |}.

Definition privilegedPod : PodSpec :=
  {| Containers := [privilegedContainer]; Volumes := [];
     PodSpec_RestartPolicy := "Always"; PodSpec_SecurityContext := None |}.

(** A port that cannot be parsed, an environment entry and a volume whose
    resources do not exist: each of them fails its own step. *)
Definition brokenContainer : Container :=
  {| Container_Name := "web"; Container_Image := "nginx";
     Command := []; Args := [];
     Container_Env :=
       [ {| EnvVar_Name := "A"; EnvVar_Value := EmptyString;
            ValueFrom :=
              Some {| ConfigMapKeyRef :=
                        Some {| KeySelector_Name := "missing"; Key := "A" |};
                      SecretKeyRef := None |} |} ];
     EnvFrom := [];
     Ports := [ {| HostPort := 8080; ContainerPort_ContainerPort := 70000;
                   Protocol := "TCP" |} ];
     VolumeMounts := [ {| VolumeMount_Name := "data"; MountPath := "/data" |} ];
     Container_Resources := ResourceRequirements_zero;
     Container_SecurityContext := None |}.

Definition brokenPod : PodSpec :=
  {| Containers := [brokenContainer];
     Volumes :=
       [ {| Volume_Name := "data";
            Volume_VolumeSource :=
              {| VolumeSource_ConfigMap :=
                   Some {| ConfigMapVolumeSource_Name := "missing" |};
                 VolumeSource_Secret := None;
                 VolumeSource_HostPath := None |} |} ];
     PodSpec_RestartPolicy := "Always"; PodSpec_SecurityContext := None |}.

(** An environment entry that reads a key [app-config] does not have. *)
Definition envOfMissingKey : EnvVar :=
  {| EnvVar_Name := "B"; EnvVar_Value := EmptyString;
     ValueFrom :=
       Some {| ConfigMapKeyRef :=
                 Some {| KeySelector_Name := "app-config"; Key := "B" |};
               SecretKeyRef := None |} |}.

(** A volume backed by the secret [db-creds], and its mount. *)
Definition credentials : Volume :=
  {| Volume_Name := "creds";
     Volume_VolumeSource :=
       {| VolumeSource_ConfigMap := None;
          VolumeSource_Secret := Some {| SecretName := "db-creds" |};
          VolumeSource_HostPath := None |} |}.

Definition credentialsMount : VolumeMount :=
  {| VolumeMount_Name := "creds"; MountPath := "/etc/creds" |}.

Definition credentialsPod : PodSpec :=
  {| Containers :=
       [ {| Container_Name := "web"; Container_Image := "nginx";
            Command := []; Args := []; Container_Env := []; EnvFrom := [];
            Ports := []; VolumeMounts := [credentialsMount];
            Container_Resources := ResourceRequirements_zero;
            Container_SecurityContext := None |} ];
     Volumes := [credentials];
     PodSpec_RestartPolicy := "Always"; PodSpec_SecurityContext := None |}.

(** A host-path volume, mounted twice. *)
Definition data : Volume :=
  {| Volume_Name := "data";
     Volume_VolumeSource :=
       {| VolumeSource_ConfigMap := None; VolumeSource_Secret := None;
          VolumeSource_HostPath := Some {| Path := "/srv" |} |} |}.

Definition mountA : VolumeMount :=
  {| VolumeMount_Name := "data"; MountPath := "/a" |}.
Definition mountB : VolumeMount :=
  {| VolumeMount_Name := "data"; MountPath := "/b" |}.

(** No request at all, and a CPU request of zero. *)
Definition noRequest : ResourceRequirements :=
  {| Limits := None; Requests := None |}.

Definition zeroRequest : ResourceRequirements :=
  {| Limits := None;
     Requests := Some {[ ResourceCPU := {| MilliValue := 0; Value := 0 |} ]} |}.

(** Half a CPU and 64 MiB requested, two CPUs and 128 MiB at most. *)
Definition halfCPU : ResourceRequirements :=
  {| Limits :=
       Some {[ ResourceCPU := {| MilliValue := 2000; Value := 2 |};
               ResourceMemory :=
                 {| MilliValue := 134217728000; Value := 134217728 |} ]};
     Requests :=
       Some {[ ResourceCPU := {| MilliValue := 500; Value := 1 |};
               ResourceMemory :=
                 {| MilliValue := 67108864000; Value := 67108864 |} ]} |}.

(** Two ports of the same protocol and container port, published on two
    host ports. *)
Definition http8080 : ContainerPort :=
  {| HostPort := 8080; ContainerPort_ContainerPort := 80; Protocol := "TCP" |}.
Definition http9090 : ContainerPort :=
  {| HostPort := 9090; ContainerPort_ContainerPort := 80; Protocol := "TCP" |}.

End Sample.

(* ===================================================================== *)
(** ** Further sample inputs *)
(* ===================================================================== *)

Module Scenario.

(** The config maps of [Sample], with the one file of [app-config] on the
    host. *)
Definition configMaps : ConfigMapStore :=
  {| GetConfigMap := GetConfigMap Sample.configMaps;
     GetConfigMapBinds configMap :=
       Found {[ "A" := "/var/lib/k2d/configmaps/app-config-k2dcm-A" ]} |}.

Definition converter : DockerAPIConverter :=
  {| configMapStore := configMaps; secretStore := Sample.secrets;
     k2dServerConfiguration := Sample.server |}.

Definition literalA : EnvVar :=
  {| EnvVar_Name := "MODE"; EnvVar_Value := "fast"; ValueFrom := None |}.
Definition literalB : EnvVar :=
  {| EnvVar_Name := "LEVEL"; EnvVar_Value := "3"; ValueFrom := None |}.

(** An entry that reads the key [A] of [app-config], with a literal value
    beside it, and one that reads a config map the store does not have. *)
Definition envOfKeyA : EnvVar :=
  {| EnvVar_Name := "SETTING"; EnvVar_Value := "unused";
     ValueFrom :=
       Some {| ConfigMapKeyRef :=
                 Some {| KeySelector_Name := "app-config"; Key := "A" |};
               SecretKeyRef :=
                 Some {| KeySelector_Name := "db-creds"; Key := "password" |} |} |}.

Definition envOfMissingConfigMap : EnvVar :=
  {| EnvVar_Name := "A"; EnvVar_Value := EmptyString;
     ValueFrom :=
       Some {| ConfigMapKeyRef :=
                 Some {| KeySelector_Name := "missing"; Key := "A" |};
               SecretKeyRef := None |} |}.

(** Env-from entries: one that names [app-config] and a secret as well,
    one that names a config map the store does not have. *)
Definition envFromAppConfig : EnvFromSource :=
  {| ConfigMapRef := Some "app-config"; SecretRef := Some "db-creds" |}.
Definition envFromMissing : EnvFromSource :=
  {| ConfigMapRef := Some "missing"; SecretRef := None |}.

(** Volumes backed by [app-config] and by a config map the store does not
    have, and their mounts. *)
Definition appConfig : Volume :=
  {| Volume_Name := "config";
     Volume_VolumeSource :=
       {| VolumeSource_ConfigMap :=
            Some {| ConfigMapVolumeSource_Name := "app-config" |};
          VolumeSource_Secret := Some {| SecretName := "db-creds" |};
          VolumeSource_HostPath := Some {| Path := "/srv" |} |} |}.

Definition appConfigMount : VolumeMount :=
  {| VolumeMount_Name := "config"; MountPath := "/etc/app" |}.

Definition missingConfig : Volume :=
  {| Volume_Name := "other";
     Volume_VolumeSource :=
       {| VolumeSource_ConfigMap :=
            Some {| ConfigMapVolumeSource_Name := "missing" |};
          VolumeSource_Secret := None;
          VolumeSource_HostPath := None |} |}.

Definition missingConfigMount : VolumeMount :=
  {| VolumeMount_Name := "other"; MountPath := "/etc/other" |}.

(** A published port whose container port is not a port number. *)
Definition unparseable : ContainerPort :=
  {| HostPort := 8080; ContainerPort_ContainerPort := 70000;
     Protocol := "TCP" |}.

(** A pod that needs no store beyond the service account. *)
Definition plainContainer : Container :=
  {| Container_Name := "web"; Container_Image := "nginx";
     Command := ["nginx"]; Args := ["-g"; "daemon off;"];
     Container_Env := [literalA; literalB]; EnvFrom := [];
     Ports := [Sample.http8080]; VolumeMounts := [Sample.mountA];
     Container_Resources := Sample.halfCPU;
     Container_SecurityContext :=
       Some {| SecurityContext_Privileged := Some true |} |}.

Definition plainPod : PodSpec :=
  {| Containers := [plainContainer]; Volumes := [Sample.data];
     PodSpec_RestartPolicy := "OnFailure";
     PodSpec_SecurityContext :=
       Some {| RunAsUser := Some 1000; RunAsGroup := Some 1000 |} |}.

(** A pod-level security context with a user and no group. *)
Definition userOnly : PodSecurityContext :=
  {| RunAsUser := Some 1000; RunAsGroup := None |}.

(** A file system, as the list of its directories, on which the directory
    of the secrets under [/data] cannot be created. *)
Definition createDir (dir : string) (directories : list string)
    : list string * option error :=
  if bool_decide (dir = "/data/secrets")
  then (directories, Some (ErrorNew "permission denied"))
  else (directories ++ [dir], None).

End Scenario.

(* ===================================================================== *)
(** ** The converters *)
(* ===================================================================== *)

Section Converter.

(** Constants of internal/adapter/types ([k2dtypes]). *)
Variable WorkloadLastAppliedConfigLabelKey : string.
Variable K2dServiceAccountSecretName : string.
Variable K2DNetworkName : string.

(** [path.Join] of two elements. *)
Variable path_Join : string → string → string.

(** The receiver of the methods. *)
Variable converter : DockerAPIConverter.

(** *** The reverse converter *)

(** [ConvertContainerToPod]. [container.Names[0]] panics on an empty
    slice; a key missing from [container.Labels] reads as [""]. *)
Definition ConvertContainerToPod (container : types_Container) : returned Pod :=
  match Names container with
  | [] => Panics index_out_of_range
  | name0 :: _ =>
    let containerName := TrimPrefix name0 "/" in
    let containerState := types_Container_State container in
    let pod :=
      {| Pod_TypeMeta := {| Kind := "Pod"; APIVersion := "v1" |};
         Pod_ObjectMeta :=
           {| ObjectMeta_Name := containerName;
              CreationTimestamp := {| Unix := Created container |};
              Namespace := "default";
              Annotations :=
                {[ "kubectl.kubernetes.io/last-applied-configuration" :=
                     default EmptyString (Labels container !! WorkloadLastAppliedConfigLabelKey) ]} |};
         Pod_Spec :=
           {| Containers :=
                [ {| Container_Name := containerName;
                     Container_Image := Image container;
                     Command := []; Args := []; Container_Env := [];
                     EnvFrom := []; Ports := []; VolumeMounts := [];
                     Container_Resources := ResourceRequirements_zero;
                     Container_SecurityContext := None |} ];
              Volumes := []; PodSpec_RestartPolicy := EmptyString;
              PodSpec_SecurityContext := None |};
         Pod_Status :=
           {| Phase := EmptyString;
              ContainerStatuses :=
                [ {| ContainerStatus_Name := containerName;
                     ContainerID := ID container;
                     RestartCount := 0;
                     Ready := false; Started := None;
                     State := {| Running := None |} |} ] |} |} in
    if String.eqb containerState "running" then
      let ready := true in
      let status := set_Phase PodRunning (Pod_Status pod) in
      let status :=
        set_ContainerStatuses
          (alter (set_Ready ready) 0%nat (ContainerStatuses status)) status in
      let status :=
        set_ContainerStatuses
          (alter (set_Started (Some ready)) 0%nat (ContainerStatuses status)) status in
      let status :=
        set_ContainerStatuses
          (alter (set_State_Running
                    (Some {| StartedAt := {| Unix := Created container |} |}))
                 0%nat (ContainerStatuses status)) status in
      Returns (set_Status status pod)
    else
      Returns (set_Status (set_Phase PodUnknown (Pod_Status pod)) pod)
  end.

(** *** The reference resolver and the forward converter *)

Definition callGetSecret (name : string) : Go (lookup Secret) :=
  call (CallGetSecret name) (GetSecret (secretStore converter) name).

Definition callGetSecretBinds (secret : Secret) : Go (lookup (gmap string string)) :=
  call (CallGetSecretBinds (Secret_Name secret))
       (GetSecretBinds (secretStore converter) secret).

Definition callGetConfigMap (name : string) : Go (lookup ConfigMap) :=
  call (CallGetConfigMap name) (GetConfigMap (configMapStore converter) name).

Definition callGetConfigMapBinds (configMap : ConfigMap)
    : Go (lookup (gmap string string)) :=
  call (CallGetConfigMapBinds (ConfigMap_Name configMap))
       (GetConfigMapBinds (configMapStore converter) configMap).

Definition setServiceAccountTokenAndCACert : Go unit :=
  r ← callGetSecret K2dServiceAccountSecretName;
  match r with
  | Failed err =>
    throw (Errorf ("unable to get secret " +:+ K2dServiceAccountSecretName) err)
  | Found secret =>
    r ← callGetSecretBinds secret;
    match r with
    | Failed err =>
      throw (Errorf ("unable to get binds for secrets "
                     +:+ K2dServiceAccountSecretName) err)
    | Found binds =>
      forRange binds (λ containerBind hostBind,
        let bind :=
          hostBind +:+ ":" +:+
          path_Join "/var/run/secrets/kubernetes.io/serviceaccount/" containerBind in
        appendBind bind)
    end
  end.

Definition handleValueFromEnvFromSource (env : EnvFromSource) : Go unit :=
  match ConfigMapRef env with
  | Some name =>
    r ← callGetConfigMap name;
    match r with
    | Failed err => throw (Errorf ("unable to get configmap " +:+ name) err)
    | Found configMap =>
      forRange (ConfigMap_Data configMap) (λ key value,
        appendEnv (key +:+ "=" +:+ value))
    end
  | None =>
    match SecretRef env with
    | Some name =>
      r ← callGetSecret name;
      match r with
      | Failed err => throw (Errorf ("unable to get secret " +:+ name) err)
      | Found secret =>
        forRange (Secret_Data secret) (λ key value,
          appendEnv (key +:+ "=" +:+ value))
      end
    | None => mret tt
    end
  end.

(** A key missing from [Data] reads as the zero value, [""]. *)
Definition handleValueFromEnvVars (env : EnvVar) : Go unit :=
  valueFrom ← deref (ValueFrom env);
  match ConfigMapKeyRef valueFrom with
  | Some configMapKeyRef =>
    r ← callGetConfigMap (KeySelector_Name configMapKeyRef);
    match r with
    | Failed err =>
      throw (Errorf ("unable to get configmap "
                     +:+ KeySelector_Name configMapKeyRef) err)
    | Found configMap =>
      appendEnv (EnvVar_Name env +:+ "=" +:+
                 default EmptyString (ConfigMap_Data configMap !! Key configMapKeyRef))
    end
  | None =>
    match SecretKeyRef valueFrom with
    | Some secretKeyRef =>
      r ← callGetSecret (KeySelector_Name secretKeyRef);
      match r with
      | Failed err =>
        throw (Errorf ("unable to get secret "
                       +:+ KeySelector_Name secretKeyRef) err)
      | Found secret =>
        appendEnv (EnvVar_Name env +:+ "=" +:+
                   default EmptyString (Secret_Data secret !! Key secretKeyRef))
      end
    | None => mret tt
    end
  end.

Definition setEnvVars (envs : list EnvVar) (envFrom : list EnvFromSource)
    : Go unit :=
  forEach envs (λ env,
    match ValueFrom env with
    | Some _ => handleValueFromEnvVars env
    | None => appendEnv (EnvVar_Name env +:+ "=" +:+ EnvVar_Value env)
    end) ;;
  forEach envFrom handleValueFromEnvFromSource.

(** In the secret branch the message of the second error is formatted from
    [volume.VolumeSource.ConfigMap.Name], as the source has it. *)
Definition handleVolumeSource (volume : Volume) (volumeMount : VolumeMount)
    : Go unit :=
  match VolumeSource_ConfigMap (Volume_VolumeSource volume) with
  | Some configMapSource =>
    r ← callGetConfigMap (ConfigMapVolumeSource_Name configMapSource);
    match r with
    | Failed err =>
      throw (Errorf ("unable to get configmap "
                     +:+ ConfigMapVolumeSource_Name configMapSource) err)
    | Found configMap =>
      r ← callGetConfigMapBinds configMap;
      match r with
      | Failed err =>
        throw (Errorf ("unable to get binds for configmap "
                       +:+ ConfigMapVolumeSource_Name configMapSource) err)
      | Found binds =>
        forRange binds (λ containerBind hostBind,
          let bind :=
            hostBind +:+ ":" +:+ path_Join (MountPath volumeMount) containerBind in
          appendBind bind)
      end
    end
  | None =>
    match VolumeSource_Secret (Volume_VolumeSource volume) with
    | Some secretSource =>
      r ← callGetSecret (SecretName secretSource);
      match r with
      | Failed err =>
        throw (Errorf ("unable to get secret " +:+ SecretName secretSource) err)
      | Found secret =>
        r ← callGetSecretBinds secret;
        match r with
        | Failed err =>
          configMapSource ← deref (VolumeSource_ConfigMap (Volume_VolumeSource volume));
          throw (Errorf ("unable to get binds for secrets "
                         +:+ ConfigMapVolumeSource_Name configMapSource) err)
        | Found binds =>
          forRange binds (λ containerBind hostBind,
            let bind :=
              hostBind +:+ ":" +:+ path_Join (MountPath volumeMount) containerBind in
            appendBind bind)
        end
      end
    | None =>
      match VolumeSource_HostPath (Volume_VolumeSource volume) with
      | Some hostPath =>
        let bind := Path hostPath +:+ ":" +:+ MountPath volumeMount in
        appendBind bind
      | None => mret tt
      end
    end
  end.

(** The inner loop of [setVolumeMounts]: the first mount of the volume's
    name is handled, and [break] leaves the loop. *)
Fixpoint setVolumeMounts_inner (volume : Volume) (volumeMounts : list VolumeMount)
    : Go unit :=
  match volumeMounts with
  | [] => mret tt
  | volumeMount :: volumeMounts' =>
    if bool_decide (VolumeMount_Name volumeMount = Volume_Name volume)
    then handleVolumeSource volume volumeMount
    else setVolumeMounts_inner volume volumeMounts'
  end.

Definition setVolumeMounts (volumes : list Volume) (volumeMounts : list VolumeMount)
    : Go unit :=
  forEach volumes (λ volume, setVolumeMounts_inner volume volumeMounts).

(** The steps of [ConvertPodSpecToContainerConfiguration] that follow the
    allocation of the two configurations. *)
Definition convertSteps (spec : PodSpec) (containerSpec : Container) : Go unit :=
  setServiceAccountTokenAndCACert ;;
  setHostPorts (Ports containerSpec) ;;
  setEnvVars (Container_Env containerSpec) (EnvFrom containerSpec) ;;
  setCommandAndArgs (Command containerSpec) (Args containerSpec) ;;
  setRestartPolicy (PodSpec_RestartPolicy spec) ;;
  setSecurityContext (PodSpec_SecurityContext spec)
                     (Container_SecurityContext containerSpec) ;;
  setResourceRequirements (Container_Resources containerSpec) ;;
  setVolumeMounts (Volumes spec) (VolumeMounts containerSpec).

(** The heap right after the two allocations. *)
Definition seedHeap (containerSpec : Container) (labels : gmap string string)
    : Heap :=
  {| containerConfig :=
       {| Config_Image := Container_Image containerSpec;
          Config_Labels := labels;
          Env := [ "KUBERNETES_SERVICE_HOST=" +:+
                     ServerIpAddr (k2dServerConfiguration converter);
                   "KUBERNETES_SERVICE_PORT=" +:+
                     Itoa (ServerPort (k2dServerConfiguration converter)) ];
          ExposedPorts := ∅; User := EmptyString; Entrypoint := []; Cmd := [] |};
     hostConfig :=
       {| Binds := []; PortBindings := ∅;
          HostConfig_RestartPolicy := {| RestartPolicy_Name := EmptyString |};
          Privileged := false;
          ExtraHosts := [ "kubernetes.default.svc:" +:+
                            ServerIpAddr (k2dServerConfiguration converter) ];
          HostConfig_Resources := Resources_zero |};
     calls := [] |}.

(** [ConvertPodSpecToContainerConfiguration]: what the call ends in, and
    the calls it made on the stores. [spec.Containers[0]] panics on an empty
    slice; every error path returns [ContainerConfiguration{}] with the
    error. *)
Definition ConvertPodSpecToContainerConfiguration
    (spec : PodSpec) (labels : gmap string string)
    : list StoreCall * returned (ContainerConfiguration * option error) :=
  match Containers spec with
  | [] => ([], Panics index_out_of_range)
  | containerSpec :: _ =>
    match convertSteps spec containerSpec (seedHeap containerSpec labels) with
    | (h, Err err) => (calls h, Returns (ContainerConfiguration_zero, Some err))
    | (h, Panic msg) => (calls h, Panics msg)
    | (h, Ok _) =>
      (calls h,
       Returns ({| ContainerConfig := Some (containerConfig h);
                   ContainerConfiguration_HostConfig := Some (hostConfig h);
                   NetworkConfig :=
                     Some {| EndpointsConfig := {[ K2DNetworkName := tt ]} |} |},
                None))
    end
  end.


(* =================================================================== *)
(** ** The file-system store (internal/adapter/store/filesystem) *)
(* =================================================================== *)

Definition ConfigMapFolder : string := "configmaps".
Definition ConfigMapSeparator : string := "-k2dcm-".
Definition FilePathAnnotationKey : string := "store.k2d.io/filesystem/path".
Definition SecretFolder : string := "secrets".
Definition SecretSeparator : string := "-k2dsec-".
Definition NamespaceNameLabelKey : string :=
  "store.k2d.io/filesystem/namespace-name".

(** [FileSystemStore]; the mutex is created unlocked. *)
Record FileSystemStore : Type := {
  configMapPath : string;
  secretPath : string;
  mutex : unit
}.

Record FileSystemStoreOptions : Type := { DataPath : string }.

(** The file system, and [filesystem.CreateDir] of pkg/filesystem on it. *)
Variable FileSystem : Type.
Variable CreateDir : string → FileSystem → FileSystem * option error.

(** The loop of [NewFileSystemStore] over the folders: it returns at the
    first directory that cannot be created. *)
Fixpoint NewFileSystemStore_loop (opts : FileSystemStoreOptions)
    (folders : list string) (fs : FileSystem) : FileSystem * option error :=
  match folders with
  | [] => (fs, None)
  | folder :: folders' =>
    match CreateDir (path_Join (DataPath opts) folder) fs with
    | (fs', Some err) =>
      (fs', Some (Errorf ("unable to create directory " +:+ folder) err))
    | (fs', None) => NewFileSystemStore_loop opts folders' fs'
    end
  end.

(** [NewFileSystemStore]: the store pointer (nil with an error), the error,
    and the file system it leaves. *)
Definition NewFileSystemStore (opts : FileSystemStoreOptions) (fs : FileSystem)
    : FileSystem * (option FileSystemStore * option error) :=
  let folders := [ConfigMapFolder; SecretFolder] in
  match NewFileSystemStore_loop opts folders fs with
  | (fs', Some err) => (fs', (None, Some err))
  | (fs', None) =>
    (fs', (Some {| configMapPath := path_Join (DataPath opts) ConfigMapFolder;
                   secretPath := path_Join (DataPath opts) SecretFolder;
                   mutex := tt |},
           None))
  end.

(* =================================================================== *)
(** ** Notions the properties are stated with *)
(* =================================================================== *)

(** A computation that leaves the privileged flag of the host
    configuration as it found it, however it ends. *)
Definition keepsPrivileged {A : Type} (m : Go A) : Prop :=
  ∀ h, Privileged (hostConfig (m h).1) = Privileged (hostConfig h).

(** What a resource field of the output holds, as a function of the list
    it is read from: the measure of the entry under [name], and zero when
    the list is nil or has no such entry. *)
Definition entryOrZero (measure : Quantity → Z)
    (list : option ResourceList) (name : string) : Z :=
  match list ≫= (λ l : ResourceList, l !! name) with
  | Some quantity => measure quantity
  | None => 0
  end.

(** The nano-CPU measure of a CPU limit. *)
Definition nanoCPUsOf (quantity : Quantity) : Z :=
  wrap64 (MilliValue quantity * 1000000).

(** The key of a declared port: ["<containerPort>/<protocol>"]. *)
Definition portKey (port : ContainerPort) : string :=
  Itoa (ContainerPort_ContainerPort port) +:+ "/" +:+ Protocol port.

(** The host binding of a declared port: the wildcard address and the
    declared host port. *)
Definition hostBindingOf (port : ContainerPort) : PortBinding :=
  {| HostIP := "0.0.0.0"; PortBinding_HostPort := Itoa (HostPort port) |}.

(** A port list is well formed when every port that names a host port has
    a container port that [nat.NewPort] parses. *)
Definition wellFormedPorts (ports : list ContainerPort) : Prop :=
  Forall (λ port, HostPort port ≠ 0 →
                  0 ≤ ContainerPort_ContainerPort port ≤ 65535) ports.

(** The last port of the list that names a host port and has the key. *)
Fixpoint lastPublished (key : string) (ports : list ContainerPort)
    : option ContainerPort :=
  match ports with
  | [] => None
  | port :: ports' =>
    match lastPublished key ports' with
    | Some later => Some later
    | None =>
      if bool_decide (HostPort port ≠ 0 ∧ portKey port = key)
      then Some port else None
    end
  end.

(** A string without ["/"]. *)
Fixpoint noSlash (s : string) : Prop :=
  match s with
  | EmptyString => True
  | String c s' => c ≠ "/"%char ∧ noSlash s'
  end.

(** The first mount, in the order of the list, that carries the name of
    the volume. *)
Definition firstMount (volume : Volume) (volumeMounts : list VolumeMount)
    : option VolumeMount :=
  List.find (λ volumeMount,
               bool_decide (VolumeMount_Name volumeMount = Volume_Name volume))
            volumeMounts.

(** A volume backed by neither a config map nor a secret. *)
Definition storeFree (volume : Volume) : Prop :=
  VolumeSource_ConfigMap (Volume_VolumeSource volume) = None
  ∧ VolumeSource_Secret (Volume_VolumeSource volume) = None.

(** The binds of the host-path volumes: one per volume that has a first
    mount, in the order of the volumes. *)
Definition hostPathBinds (volumes : list Volume) (volumeMounts : list VolumeMount)
    : list string :=
  flat_map (λ volume,
    match firstMount volume volumeMounts,
          VolumeSource_HostPath (Volume_VolumeSource volume) with
    | Some volumeMount, Some hostPath =>
      [Path hostPath +:+ ":" +:+ MountPath volumeMount]
    | _, _ => []
    end) volumes.

(** The heap after [entries] are appended to the environment, and after
    [binds] are appended to the binds. *)
Definition Heap_appendEnv (entries : list string) (h : Heap) : Heap :=
  Heap_modifyConfig (λ c, set_Env (Env c ++ entries) c) h.

Definition Heap_appendBinds (binds : list string) (h : Heap) : Heap :=
  Heap_modifyHostConfig (λ hc, set_Binds (Binds hc ++ binds) hc) h.

(** The environment entry of a literal variable, and the entries of the
    data of a resource, in the order the data is ranged over. *)
Definition literalEntry (env : EnvVar) : string :=
  EnvVar_Name env +:+ "=" +:+ EnvVar_Value env.

Definition dataEntries (data : gmap string string) : list string :=
  (λ kv, kv.1 +:+ "=" +:+ kv.2) <$> map_to_list data.

(** The binds of a bind mapping under a directory of the container, in the
    order the mapping is ranged over. *)
Definition bindsUnder (root : string) (binds : gmap string string) : list string :=
  (λ kv, kv.2 +:+ ":" +:+ path_Join root kv.1) <$> map_to_list binds.

Definition serviceAccountRoot : string :=
  "/var/run/secrets/kubernetes.io/serviceaccount/".

(** The name of the Docker restart policy of a pod restart policy. *)
Definition restartPolicyName (restartPolicy : string) : string :=
  if bool_decide (restartPolicy = "OnFailure") then "on-failure"
  else if bool_decide (restartPolicy = "Never") then "no"
  else "always".

(** The user and the privileged flag after the security contexts are
    applied to [user] and [privileged]. *)
Definition userAfter (podSecurityContext : option PodSecurityContext)
    (user : string) : string :=
  match podSecurityContext with
  | Some {| RunAsUser := Some runAsUser; RunAsGroup := Some runAsGroup |} =>
    Itoa runAsUser +:+ ":" +:+ Itoa runAsGroup
  | _ => user
  end.

Definition privilegedAfter (podSecurityContext : option PodSecurityContext)
    (containerSecurityContext : option SecurityContext) (privileged : bool)
    : bool :=
  match podSecurityContext, containerSecurityContext with
  | Some _, Some {| SecurityContext_Privileged := Some flag |} => flag
  | _, _ => privileged
  end.

(** What a computation never undoes: the image, the labels and the extra
    hosts stay, the environment, the binds and the trace of store calls are
    only extended. *)
Definition grows (h h' : Heap) : Prop :=
  Config_Image (containerConfig h') = Config_Image (containerConfig h)
  ∧ Config_Labels (containerConfig h') = Config_Labels (containerConfig h)
  ∧ ExtraHosts (hostConfig h') = ExtraHosts (hostConfig h)
  ∧ Env (containerConfig h) `prefix_of` Env (containerConfig h')
  ∧ Binds (hostConfig h) `prefix_of` Binds (hostConfig h')
  ∧ calls h `prefix_of` calls h'.

Definition steady {A : Type} (m : Go A) : Prop := ∀ h, grows h (m h).1.

(** A computation whose first effect is the store call [c], and that only
    grows the heap from there. *)
Definition firstCalls {A : Type} (c : StoreCall) (m : Go A) : Prop :=
  ∀ h, grows (Heap_call c h) (m h).1.

(** A computation all of whose runs stay within a relation on heaps. *)
Definition respects (R : Heap → Heap → Prop) {A : Type} (m : Go A) : Prop :=
  ∀ h, R h (m h).1.

(** Two heaps that differ at most in the environment, the binds and the
    trace of store calls. *)
Definition sameButEnvBindsCalls (h h' : Heap) : Prop :=
  set_Env [] (containerConfig h') = set_Env [] (containerConfig h)
  ∧ set_Binds [] (hostConfig h') = set_Binds [] (hostConfig h).

(* =================================================================== *)
(** ** Properties of the reverse converter *)
(* =================================================================== *)

Lemma substring_all (s : string) : String.substring 0 (String.length s) s = s.
Proof. induction s as [|c s IH]; simpl; [done | by rewrite IH]. Qed.

Lemma append_String (c : Ascii.ascii) (s t : string) :
  String c s +:+ t = String c (s +:+ t).
Proof. reflexivity. Qed.

Lemma append_EmptyString (t : string) : EmptyString +:+ t = t.
Proof. reflexivity. Qed.

(** One leading ["/"] is stripped, and no more than one. *)
Lemma TrimPrefix_slash (s : string) : TrimPrefix ("/" +:+ s) "/" = s.
Proof.
  rewrite append_String, append_EmptyString.
  unfold TrimPrefix. simpl. rewrite Nat.sub_0_r.
  destruct s as [|c s]; simpl; [done |].
  by rewrite substring_all.
Qed.

(** A name that does not start with ["/"] is kept as it is. *)
Lemma TrimPrefix_other (s : string) :
  String.prefix "/" s = false → TrimPrefix s "/" = s.
Proof. intros H. unfold TrimPrefix. by rewrite H. Qed.

(** C6. For a container descriptor with first name [name0]: the state
    ["running"] gives phase Running and one container status that is
    ready, started and running since the creation time; every other state
    gives phase Unknown with none of the three set; the pod is named
    [name0] without one leading ["/"]; the restart count is zero. *)
Theorem C6_reverse_phase_mapping
    (container : types_Container) (name0 : string) (names : list string) :
  Names container = name0 :: names →
  ∃ (pod : Pod) (status : ContainerStatus),
    ConvertContainerToPod container = Returns pod
    ∧ ObjectMeta_Name (Pod_ObjectMeta pod) = TrimPrefix name0 "/"
    ∧ (∀ s, name0 = "/" +:+ s → ObjectMeta_Name (Pod_ObjectMeta pod) = s)
    ∧ CreationTimestamp (Pod_ObjectMeta pod) = {| Unix := Created container |}
    ∧ ContainerStatuses (Pod_Status pod) = [status]
    ∧ ContainerStatus_Name status = TrimPrefix name0 "/"
    ∧ RestartCount status = 0
    ∧ (types_Container_State container = "running" →
         Phase (Pod_Status pod) = PodRunning
         ∧ Ready status = true
         ∧ Started status = Some true
         ∧ Running (State status)
           = Some {| StartedAt := {| Unix := Created container |} |})
    ∧ (types_Container_State container ≠ "running" →
         Phase (Pod_Status pod) = PodUnknown
         ∧ Ready status = false
         ∧ Started status = None
         ∧ Running (State status) = None).
Proof.
  intros Hnames. unfold ConvertContainerToPod. rewrite Hnames.
  destruct (String.eqb (types_Container_State container) "running") eqn:Hstate.
  - apply String.eqb_eq in Hstate.
    eexists _, _. split; [reflexivity |]. simpl.
    repeat split; try done.
    intros s ->. apply TrimPrefix_slash.
  - apply String.eqb_neq in Hstate.
    eexists _, _. split; [reflexivity |]. simpl.
    repeat split; try done.
    intros s ->. apply TrimPrefix_slash.
Qed.

(** C9, as the code has it. The reverse converter has no error result. It
    returns a pod for every descriptor whose names list is not empty,
    whatever its state; on an empty names list the indexing [Names[0]]
    panics. *)
Theorem C9_reverse_total_on_named (container : types_Container) :
  (Names container ≠ [] →
     ∃ pod : Pod, ConvertContainerToPod container = Returns pod)
  ∧ (Names container = [] →
       ConvertContainerToPod container = Panics index_out_of_range).
Proof.
  unfold ConvertContainerToPod.
  destruct (Names container) as [|name0 names]; split; try done.
  intros _. destruct (String.eqb _ _); eauto.
Qed.

(* =================================================================== *)
(** ** Properties of the forward converter: order and failure *)
(* =================================================================== *)

Ltac go_unfold :=
  unfold mbind, Go_bind, mret, Go_ret, throw, panic, deref, call,
         callGetSecret, callGetSecretBinds, callGetConfigMap,
         callGetConfigMapBinds, modifyConfig, modifyHostConfig,
         appendEnv, appendBind in *.

(** C10. The first container is indexed before anything else happens: on
    an empty container list the conversion panics, with no call made on a
    store and no error returned; on a non-empty one the containers after
    the first are never read. *)
Theorem C10_first_container_only :
  (∀ volumes restartPolicy securityContext labels,
     ConvertPodSpecToContainerConfiguration
       {| Containers := []; Volumes := volumes;
          PodSpec_RestartPolicy := restartPolicy;
          PodSpec_SecurityContext := securityContext |} labels
     = ([], Panics index_out_of_range))
  ∧ (∀ containerSpec others volumes restartPolicy securityContext labels,
       ConvertPodSpecToContainerConfiguration
         {| Containers := containerSpec :: others; Volumes := volumes;
            PodSpec_RestartPolicy := restartPolicy;
            PodSpec_SecurityContext := securityContext |} labels
       = ConvertPodSpecToContainerConfiguration
           {| Containers := [containerSpec]; Volumes := volumes;
              PodSpec_RestartPolicy := restartPolicy;
              PodSpec_SecurityContext := securityContext |} labels).
Proof. split; reflexivity. Qed.

(** The service-account step when the secret is not there. *)
Lemma setServiceAccountTokenAndCACert_failed (err : error) (h : Heap) :
  GetSecret (secretStore converter) K2dServiceAccountSecretName = Failed err →
  setServiceAccountTokenAndCACert h
  = (Heap_call (CallGetSecret K2dServiceAccountSecretName) h,
     Err (Errorf ("unable to get secret " +:+ K2dServiceAccountSecretName) err)).
Proof.
  intros Hget. unfold setServiceAccountTokenAndCACert. go_unfold.
  by rewrite Hget.
Qed.

(** C4. A step that returns an error ends the conversion, which returns
    that error with the zero bundle; a bundle that is returned is either
    that zero value, with an error, or has its three parts, with none: it
    is never populated in part. When the lookup of the service-account
    secret fails, the steps stop there: the heap is the seeded one, the
    only call made on a store is that lookup, and the error wraps the
    store's error under the secret's name, whatever the ports, environment
    and volumes of the spec are. *)
Theorem C4_atomic_on_failure (spec : PodSpec) (labels : gmap string string) :
  (∀ containerSpec others h err,
     Containers spec = containerSpec :: others →
     convertSteps spec containerSpec (seedHeap containerSpec labels)
     = (h, Err err) →
     ConvertPodSpecToContainerConfiguration spec labels
     = (calls h, Returns (ContainerConfiguration_zero, Some err)))
  ∧ (∀ trace bundle outcome,
       ConvertPodSpecToContainerConfiguration spec labels
       = (trace, Returns (bundle, outcome)) →
       match outcome with
       | Some _ => bundle = ContainerConfiguration_zero
       | None => is_Some (ContainerConfig bundle)
                 ∧ is_Some (ContainerConfiguration_HostConfig bundle)
                 ∧ is_Some (NetworkConfig bundle)
       end)
  ∧ (∀ containerSpec others err,
       Containers spec = containerSpec :: others →
       GetSecret (secretStore converter) K2dServiceAccountSecretName
       = Failed err →
       convertSteps spec containerSpec (seedHeap containerSpec labels)
       = (Heap_call (CallGetSecret K2dServiceAccountSecretName)
                    (seedHeap containerSpec labels),
          Err (Errorf ("unable to get secret " +:+ K2dServiceAccountSecretName)
                      err))
       ∧ ConvertPodSpecToContainerConfiguration spec labels
         = ([CallGetSecret K2dServiceAccountSecretName],
            Returns (ContainerConfiguration_zero,
                     Some (Errorf ("unable to get secret "
                                   +:+ K2dServiceAccountSecretName) err)))).
Proof.
  split; [| split].
  - intros containerSpec others h err Hcs Hsteps.
    unfold ConvertPodSpecToContainerConfiguration. by rewrite Hcs, Hsteps.
  - intros trace bundle outcome.
    unfold ConvertPodSpecToContainerConfiguration.
    destruct (Containers spec) as [|containerSpec others]; [done |].
    destruct (convertSteps _ _ _) as [h [[]|e|msg]]; intros H; simplify_eq;
      [| done].
    simpl. eauto.
  - intros containerSpec others err Hcs Hget.
    assert (convertSteps spec containerSpec (seedHeap containerSpec labels)
            = (Heap_call (CallGetSecret K2dServiceAccountSecretName)
                         (seedHeap containerSpec labels),
               Err (Errorf ("unable to get secret "
                            +:+ K2dServiceAccountSecretName) err))) as Hsteps.
    { unfold convertSteps. unfold mbind at 1, Go_bind at 1.
      by rewrite (setServiceAccountTokenAndCACert_failed err). }
    split; [done |].
    unfold ConvertPodSpecToContainerConfiguration. by rewrite Hcs, Hsteps.
Qed.

(* =================================================================== *)
(** ** Properties of the reference resolver *)
(* =================================================================== *)

(** C8. An indirect environment entry that names a config map or a secret:
    when the store does not have the resource, the handler returns the
    store's error wrapped under the resource's name, after that one call;
    when the resource is there and the key is not in its data, the entry
    ["NAME="] is appended and no error is returned. *)
Theorem C8_indirect_env_entry
    (env : EnvVar) (valueFrom : EnvVarSource) (ref : KeySelector) (h : Heap) :
  ValueFrom env = Some valueFrom →
  (ConfigMapKeyRef valueFrom = Some ref →
     (∀ err,
        GetConfigMap (configMapStore converter) (KeySelector_Name ref)
        = Failed err →
        handleValueFromEnvVars env h
        = (Heap_call (CallGetConfigMap (KeySelector_Name ref)) h,
           Err (Errorf ("unable to get configmap " +:+ KeySelector_Name ref) err))
        ∧ Unwrap (Errorf ("unable to get configmap " +:+ KeySelector_Name ref) err)
          = Some err
        ∧ Error (Errorf ("unable to get configmap " +:+ KeySelector_Name ref) err)
          = ("unable to get configmap " +:+ KeySelector_Name ref)
            +:+ ": " +:+ Error err)
     ∧ (∀ configMap,
          GetConfigMap (configMapStore converter) (KeySelector_Name ref)
          = Found configMap →
          ConfigMap_Data configMap !! Key ref = None →
          handleValueFromEnvVars env h
          = (Heap_modifyConfig
               (λ c, set_Env (Env c ++ [EnvVar_Name env +:+ "="]) c)
               (Heap_call (CallGetConfigMap (KeySelector_Name ref)) h),
             Ok tt)))
  ∧ (ConfigMapKeyRef valueFrom = None →
     SecretKeyRef valueFrom = Some ref →
     (∀ err,
        GetSecret (secretStore converter) (KeySelector_Name ref) = Failed err →
        handleValueFromEnvVars env h
        = (Heap_call (CallGetSecret (KeySelector_Name ref)) h,
           Err (Errorf ("unable to get secret " +:+ KeySelector_Name ref) err))
        ∧ Unwrap (Errorf ("unable to get secret " +:+ KeySelector_Name ref) err)
          = Some err
        ∧ Error (Errorf ("unable to get secret " +:+ KeySelector_Name ref) err)
          = ("unable to get secret " +:+ KeySelector_Name ref)
            +:+ ": " +:+ Error err)
     ∧ (∀ secret,
          GetSecret (secretStore converter) (KeySelector_Name ref)
          = Found secret →
          Secret_Data secret !! Key ref = None →
          handleValueFromEnvVars env h
          = (Heap_modifyConfig
               (λ c, set_Env (Env c ++ [EnvVar_Name env +:+ "="]) c)
               (Heap_call (CallGetSecret (KeySelector_Name ref)) h),
             Ok tt))).
Proof.
  intros HvalueFrom. unfold handleValueFromEnvVars. rewrite HvalueFrom.
  split.
  - intros Href. split.
    + intros err Hget. go_unfold. simpl. by rewrite Href, Hget.
    + intros configMap Hget Hkey. go_unfold. simpl.
      by rewrite Href, Hget, Hkey.
  - intros Hnone Href. split.
    + intros err Hget. go_unfold. simpl. by rewrite Hnone, Href, Hget.
    + intros secret Hget Hkey. go_unfold. simpl.
      by rewrite Hnone, Href, Hget, Hkey.
Qed.

(** C3, as the code has it. A secret-backed volume whose secret the store
    finds but whose bind mappings it cannot produce: formatting the error
    reads the name through the volume's config-map pointer, which is nil
    in this branch, so the handler panics after the two store calls and
    returns no error. *)
Theorem C3_secret_binds_failure_panics
    (volume : Volume) (volumeMount : VolumeMount)
    (secretSource : SecretVolumeSource) (secret : Secret) (err : error)
    (h : Heap) :
  VolumeSource_ConfigMap (Volume_VolumeSource volume) = None →
  VolumeSource_Secret (Volume_VolumeSource volume) = Some secretSource →
  GetSecret (secretStore converter) (SecretName secretSource) = Found secret →
  GetSecretBinds (secretStore converter) secret = Failed err →
  handleVolumeSource volume volumeMount h
  = (Heap_call (CallGetSecretBinds (Secret_Name secret))
       (Heap_call (CallGetSecret (SecretName secretSource)) h),
     Panic nil_dereference).
Proof.
  intros Hcm Hsec Hget Hbinds. unfold handleVolumeSource. go_unfold.
  rewrite Hcm, Hsec. simpl. rewrite Hget. simpl. by rewrite Hbinds.
Qed.

(* =================================================================== *)
(** ** The security context *)
(* =================================================================== *)

Lemma keepsPrivileged_ret {A : Type} (a : A) : keepsPrivileged (mret a).
Proof. by intros h. Qed.

Lemma keepsPrivileged_throw {A : Type} (err : error) :
  keepsPrivileged (@throw A err).
Proof. by intros h. Qed.

Lemma keepsPrivileged_panic {A : Type} (msg : string) :
  keepsPrivileged (@panic A msg).
Proof. by intros h. Qed.

Lemma keepsPrivileged_call {A : Type} (c : StoreCall) (answer : lookup A) :
  keepsPrivileged (call c answer).
Proof. by intros h. Qed.

Lemma keepsPrivileged_modifyConfig (f : Config → Config) :
  keepsPrivileged (modifyConfig f).
Proof. by intros h. Qed.

Lemma keepsPrivileged_modifyHostConfig (f : HostConfig → HostConfig) :
  (∀ hc, Privileged (f hc) = Privileged hc) →
  keepsPrivileged (modifyHostConfig f).
Proof. intros Hf h. simpl. apply Hf. Qed.

Lemma keepsPrivileged_bind {A B : Type} (m : Go A) (f : A → Go B) :
  keepsPrivileged m → (∀ a, keepsPrivileged (f a)) →
  keepsPrivileged (m ≫= f).
Proof.
  intros Hm Hf h. unfold mbind, Go_bind.
  specialize (Hm h). destruct (m h) as [h' [a|err|msg]]; simpl in *; try done.
  by rewrite Hf.
Qed.

Lemma keepsPrivileged_forEach {A : Type} (l : list A) (body : A → Go unit) :
  (∀ x, keepsPrivileged (body x)) → keepsPrivileged (forEach l body).
Proof.
  intros Hbody. induction l as [|x l IH]; simpl.
  - apply keepsPrivileged_ret.
  - apply keepsPrivileged_bind; [apply Hbody | by intros _].
Qed.

Lemma keepsPrivileged_forRange {V : Type} (m : gmap string V)
    (body : string → V → Go unit) :
  (∀ k v, keepsPrivileged (body k v)) → keepsPrivileged (forRange m body).
Proof. intros Hbody. apply keepsPrivileged_forEach. intros [k v]. apply Hbody. Qed.

Lemma keepsPrivileged_appendEnv (entry : string) :
  keepsPrivileged (appendEnv entry).
Proof. apply keepsPrivileged_modifyConfig. Qed.

Lemma keepsPrivileged_appendBind (bind : string) :
  keepsPrivileged (appendBind bind).
Proof. by apply keepsPrivileged_modifyHostConfig. Qed.

Lemma keepsPrivileged_deref {A : Type} (p : option A) :
  keepsPrivileged (deref p).
Proof. by destruct p. Qed.

Create HintDb keeps.
#[local] Hint Resolve
  keepsPrivileged_ret keepsPrivileged_throw keepsPrivileged_panic
  keepsPrivileged_call keepsPrivileged_modifyConfig keepsPrivileged_bind
  keepsPrivileged_forEach keepsPrivileged_forRange keepsPrivileged_appendEnv
  keepsPrivileged_appendBind keepsPrivileged_deref : keeps.

Ltac keeps :=
  repeat first
    [ progress intros
    | apply keepsPrivileged_bind
    | apply keepsPrivileged_forEach
    | apply keepsPrivileged_forRange
    | apply keepsPrivileged_modifyHostConfig; done
    | solve [auto with keeps]
    | match goal with
      | |- keepsPrivileged (match ?x with _ => _ end) => destruct x
      | |- keepsPrivileged (if ?b then _ else _) => destruct b
      end ].

Lemma keepsPrivileged_setServiceAccountTokenAndCACert :
  keepsPrivileged setServiceAccountTokenAndCACert.
Proof.
  unfold setServiceAccountTokenAndCACert, callGetSecret, callGetSecretBinds.
  keeps.
Qed.

Lemma keepsPrivileged_setHostPorts (ports : list ContainerPort) :
  keepsPrivileged (setHostPorts ports).
Proof. unfold setHostPorts. keeps. Qed.

Lemma keepsPrivileged_handleValueFromEnvVars (env : EnvVar) :
  keepsPrivileged (handleValueFromEnvVars env).
Proof.
  unfold handleValueFromEnvVars, callGetSecret, callGetConfigMap. keeps.
Qed.

Lemma keepsPrivileged_handleValueFromEnvFromSource (env : EnvFromSource) :
  keepsPrivileged (handleValueFromEnvFromSource env).
Proof.
  unfold handleValueFromEnvFromSource, callGetSecret, callGetConfigMap. keeps.
Qed.

Lemma keepsPrivileged_setEnvVars
    (envs : list EnvVar) (envFrom : list EnvFromSource) :
  keepsPrivileged (setEnvVars envs envFrom).
Proof.
  unfold setEnvVars.
  apply keepsPrivileged_bind; [| intros _]; apply keepsPrivileged_forEach.
  - intros env. destruct (ValueFrom env).
    + apply keepsPrivileged_handleValueFromEnvVars.
    + apply keepsPrivileged_appendEnv.
  - apply keepsPrivileged_handleValueFromEnvFromSource.
Qed.

Lemma keepsPrivileged_setCommandAndArgs (command args : list string) :
  keepsPrivileged (setCommandAndArgs command args).
Proof. unfold setCommandAndArgs. keeps. Qed.

Lemma keepsPrivileged_setRestartPolicy (restartPolicy : string) :
  keepsPrivileged (setRestartPolicy restartPolicy).
Proof. unfold setRestartPolicy. keeps. Qed.

Lemma keepsPrivileged_setResourceRequirements (resources : ResourceRequirements) :
  keepsPrivileged (setResourceRequirements resources).
Proof. unfold setResourceRequirements. keeps. Qed.

Lemma keepsPrivileged_handleVolumeSource
    (volume : Volume) (volumeMount : VolumeMount) :
  keepsPrivileged (handleVolumeSource volume volumeMount).
Proof.
  unfold handleVolumeSource, callGetSecret, callGetSecretBinds,
         callGetConfigMap, callGetConfigMapBinds.
  keeps.
Qed.

Lemma keepsPrivileged_setVolumeMounts
    (volumes : list Volume) (volumeMounts : list VolumeMount) :
  keepsPrivileged (setVolumeMounts volumes volumeMounts).
Proof.
  unfold setVolumeMounts. apply keepsPrivileged_forEach. intros volume.
  induction volumeMounts as [|volumeMount volumeMounts IH]; simpl.
  - apply keepsPrivileged_ret.
  - destruct (bool_decide _); [apply keepsPrivileged_handleVolumeSource | done].
Qed.

(** Without a pod-level security context the function returns at once. *)
Lemma setSecurityContext_no_pod_context
    (containerSecurityContext : option SecurityContext) (h : Heap) :
  setSecurityContext None containerSecurityContext h = (h, Ok tt).
Proof. reflexivity. Qed.

(** With a pod-level security context, both layers are applied. *)
Lemma setSecurityContext_both_layers
    (runAsUser runAsGroup : Z) (privileged : bool) (h : Heap) :
  setSecurityContext
    (Some {| RunAsUser := Some runAsUser; RunAsGroup := Some runAsGroup |})
    (Some {| SecurityContext_Privileged := Some privileged |}) h
  = (Heap_modifyHostConfig (set_Privileged privileged)
       (Heap_modifyConfig
          (set_User (Itoa runAsUser +:+ ":" +:+ Itoa runAsGroup)) h),
     Ok tt).
Proof. reflexivity. Qed.

(** C1, as the code has it. When the spec has no pod-level security
    context, the privileged flag of the container-level one is never
    copied: every bundle the conversion returns has a host configuration
    that is not privileged. *)
Theorem C1_privileged_dropped_without_pod_context
    (spec : PodSpec) (labels : gmap string string)
    (trace : list StoreCall) (bundle : ContainerConfiguration)
    (hostConfig' : HostConfig) :
  PodSpec_SecurityContext spec = None →
  ConvertPodSpecToContainerConfiguration spec labels
  = (trace, Returns (bundle, None)) →
  ContainerConfiguration_HostConfig bundle = Some hostConfig' →
  Privileged hostConfig' = false.
Proof.
  intros Hpod. unfold ConvertPodSpecToContainerConfiguration.
  destruct (Containers spec) as [|containerSpec others]; [done |].
  assert (keepsPrivileged (convertSteps spec containerSpec)) as Hkeeps.
  { unfold convertSteps. rewrite Hpod.
    apply keepsPrivileged_bind;
      [apply keepsPrivileged_setServiceAccountTokenAndCACert | intros _].
    apply keepsPrivileged_bind; [apply keepsPrivileged_setHostPorts | intros _].
    apply keepsPrivileged_bind; [apply keepsPrivileged_setEnvVars | intros _].
    apply keepsPrivileged_bind;
      [apply keepsPrivileged_setCommandAndArgs | intros _].
    apply keepsPrivileged_bind;
      [apply keepsPrivileged_setRestartPolicy | intros _].
    apply keepsPrivileged_bind; [by intros h | intros _].
    apply keepsPrivileged_bind;
      [apply keepsPrivileged_setResourceRequirements | intros _].
    apply keepsPrivileged_setVolumeMounts. }
  specialize (Hkeeps (seedHeap containerSpec labels)).
  destruct (convertSteps _ _ _) as [h [[]|e|msg]]; intros H Hhc;
    simplify_eq/=.
  done.
Qed.

(* =================================================================== *)
(** ** Resource requirements *)
(* =================================================================== *)

Lemma wrap64_id (z : Z) : - 2 ^ 63 ≤ z < 2 ^ 63 → wrap64 z = z.
Proof. intros Hz. unfold wrap64. rewrite Z.mod_small; lia. Qed.

Lemma wrap64_range (z : Z) : - 2 ^ 63 ≤ wrap64 z < 2 ^ 63.
Proof.
  unfold wrap64.
  pose proof (Z.mod_pos_bound (z + 2 ^ 63) (2 ^ 64) ltac:(lia)). lia.
Qed.

Lemma ResourceCPU_neq_ResourceMemory : ResourceCPU ≠ ResourceMemory.
Proof. done. Qed.

(** One turn of the loop over the requests, field by field. *)
Lemma requestsStep_fields (r : Resources) (name : string) (q : Quantity) :
  let r' := requestsStep r (name, q) in
  CPUShares r'
    = (if bool_decide (name = ResourceCPU) then MilliValue q else CPUShares r)
  ∧ MemoryReservation r'
    = (if bool_decide (name = ResourceMemory) then Value q
       else MemoryReservation r)
  ∧ NanoCPUs r' = NanoCPUs r
  ∧ Memory r' = Memory r.
Proof.
  unfold requestsStep. pose proof ResourceCPU_neq_ResourceMemory.
  repeat case_bool_decide; by simplify_eq.
Qed.

(** One turn of the loop over the limits, field by field. *)
Lemma limitsStep_fields (r : Resources) (name : string) (q : Quantity) :
  let r' := limitsStep r (name, q) in
  NanoCPUs r'
    = (if bool_decide (name = ResourceCPU) then nanoCPUsOf q else NanoCPUs r)
  ∧ Memory r'
    = (if bool_decide (name = ResourceMemory) then Value q else Memory r)
  ∧ CPUShares r' = CPUShares r
  ∧ MemoryReservation r' = MemoryReservation r.
Proof.
  unfold limitsStep. pose proof ResourceCPU_neq_ResourceMemory.
  repeat case_bool_decide; by simplify_eq.
Qed.

(** The loop over the requests, on any list of entries with distinct
    names: the two request fields end as the entries say, the two limit
    fields are not touched. *)
Lemma foldl_requestsStep (l : list (string * Quantity)) (r : Resources) :
  NoDup l.*1 →
  let r' := foldl requestsStep r l in
  (∀ q, (ResourceCPU, q) ∈ l → CPUShares r' = MilliValue q)
  ∧ (ResourceCPU ∉ l.*1 → CPUShares r' = CPUShares r)
  ∧ (∀ q, (ResourceMemory, q) ∈ l → MemoryReservation r' = Value q)
  ∧ (ResourceMemory ∉ l.*1 → MemoryReservation r' = MemoryReservation r)
  ∧ NanoCPUs r' = NanoCPUs r
  ∧ Memory r' = Memory r.
Proof.
  revert r. induction l as [|[name quantity] l IH]; intros r Hnodup.
  { simpl. repeat split; try done; intros q Hq; by apply elem_of_nil in Hq. }
  rewrite fmap_cons in *. cbn [foldl fst] in *.
  apply NoDup_cons in Hnodup as [Hname Hnodup].
  destruct (IH (requestsStep r (name, quantity)) Hnodup)
    as (Hcpu & Hnocpu & Hmem & Hnomem & Hnano & Hlimit).
  destruct (requestsStep_fields r name quantity) as (Es & Er & En & Em).
  repeat split.
  - intros q [Hq | Hq]%elem_of_cons; [| by apply Hcpu].
    simplify_eq. rewrite Hnocpu, Es by done.
    by rewrite bool_decide_eq_true_2.
  - intros [Hne Hnotin]%not_elem_of_cons. rewrite Hnocpu, Es by done.
    by rewrite bool_decide_eq_false_2.
  - intros q [Hq | Hq]%elem_of_cons; [| by apply Hmem].
    simplify_eq. rewrite Hnomem, Er by done.
    by rewrite bool_decide_eq_true_2.
  - intros [Hne Hnotin]%not_elem_of_cons. rewrite Hnomem, Er by done.
    by rewrite bool_decide_eq_false_2.
  - by rewrite Hnano.
  - by rewrite Hlimit.
Qed.

(** The same for the loop over the limits. *)
Lemma foldl_limitsStep (l : list (string * Quantity)) (r : Resources) :
  NoDup l.*1 →
  let r' := foldl limitsStep r l in
  (∀ q, (ResourceCPU, q) ∈ l → NanoCPUs r' = nanoCPUsOf q)
  ∧ (ResourceCPU ∉ l.*1 → NanoCPUs r' = NanoCPUs r)
  ∧ (∀ q, (ResourceMemory, q) ∈ l → Memory r' = Value q)
  ∧ (ResourceMemory ∉ l.*1 → Memory r' = Memory r)
  ∧ CPUShares r' = CPUShares r
  ∧ MemoryReservation r' = MemoryReservation r.
Proof.
  revert r. induction l as [|[name quantity] l IH]; intros r Hnodup.
  { simpl. repeat split; try done; intros q Hq; by apply elem_of_nil in Hq. }
  rewrite fmap_cons in *. cbn [foldl fst] in *.
  apply NoDup_cons in Hnodup as [Hname Hnodup].
  destruct (IH (limitsStep r (name, quantity)) Hnodup)
    as (Hcpu & Hnocpu & Hmem & Hnomem & Hshares & Hreservation).
  destruct (limitsStep_fields r name quantity) as (En & Em & Es & Er).
  repeat split.
  - intros q [Hq | Hq]%elem_of_cons; [| by apply Hcpu].
    simplify_eq. rewrite Hnocpu, En by done.
    by rewrite bool_decide_eq_true_2.
  - intros [Hne Hnotin]%not_elem_of_cons. rewrite Hnocpu, En by done.
    by rewrite bool_decide_eq_false_2.
  - intros q [Hq | Hq]%elem_of_cons; [| by apply Hmem].
    simplify_eq. rewrite Hnomem, Em by done.
    by rewrite bool_decide_eq_true_2.
  - intros [Hne Hnotin]%not_elem_of_cons. rewrite Hnomem, Em by done.
    by rewrite bool_decide_eq_false_2.
  - by rewrite Hshares.
  - by rewrite Hreservation.
Qed.

(** An entry of a map, seen in its enumeration. *)
Lemma map_to_list_entry {V : Type} (m : gmap string V) (name : string) :
  match m !! name with
  | Some v => (name, v) ∈ map_to_list m
  | None => name ∉ (map_to_list m).*1
  end.
Proof.
  destruct (m !! name) as [v|] eqn:Hlookup.
  - by apply elem_of_map_to_list.
  - intros ([name' v] & -> & Hin%elem_of_map_to_list)%list_elem_of_fmap.
    simpl in *. congruence.
Qed.

(** The two loops, on the maps they range over. *)
Lemma requests_loop (requests : ResourceList) (r : Resources) :
  let r' := foldl requestsStep r (map_to_list requests) in
  CPUShares r' = from_option MilliValue (CPUShares r) (requests !! ResourceCPU)
  ∧ MemoryReservation r'
    = from_option Value (MemoryReservation r) (requests !! ResourceMemory)
  ∧ NanoCPUs r' = NanoCPUs r
  ∧ Memory r' = Memory r.
Proof.
  destruct (foldl_requestsStep (map_to_list requests) r)
    as (Hcpu & Hnocpu & Hmem & Hnomem & Hnano & Hlimit);
    [apply NoDup_fst_map_to_list |].
  pose proof (map_to_list_entry requests ResourceCPU) as Ecpu.
  pose proof (map_to_list_entry requests ResourceMemory) as Emem.
  simpl. repeat split; try done.
  - destruct (requests !! ResourceCPU); simpl; auto.
  - destruct (requests !! ResourceMemory); simpl; auto.
Qed.

Lemma limits_loop (limits : ResourceList) (r : Resources) :
  let r' := foldl limitsStep r (map_to_list limits) in
  NanoCPUs r' = from_option nanoCPUsOf (NanoCPUs r) (limits !! ResourceCPU)
  ∧ Memory r' = from_option Value (Memory r) (limits !! ResourceMemory)
  ∧ CPUShares r' = CPUShares r
  ∧ MemoryReservation r' = MemoryReservation r.
Proof.
  destruct (foldl_limitsStep (map_to_list limits) r)
    as (Hcpu & Hnocpu & Hmem & Hnomem & Hshares & Hreservation);
    [apply NoDup_fst_map_to_list |].
  pose proof (map_to_list_entry limits ResourceCPU) as Ecpu.
  pose proof (map_to_list_entry limits ResourceMemory) as Emem.
  simpl. repeat split; try done.
  - destruct (limits !! ResourceCPU); simpl; auto.
  - destruct (limits !! ResourceMemory); simpl; auto.
Qed.

Lemma entryOrZero_nonzero (measure : Quantity → Z)
    (list : option ResourceList) (name : string) :
  entryOrZero measure list name ≠ 0 →
  ∃ (l : ResourceList) (q : Quantity),
    list = Some l ∧ l !! name = Some q ∧ measure q ≠ 0.
Proof.
  unfold entryOrZero. destruct list as [l|]; simpl; [| done].
  destruct (l !! name) as [q|] eqn:Hentry; [| done].
  intros Hq. by exists l, q.
Qed.

(** C5, as the code has it. The four resource fields of the output are
    plain [int64]s: each holds the measure of its request or limit when
    that entry is present, and zero when it is absent, so a field can only
    be non-zero when its entry is present, and an absent entry and an entry
    of measure zero give the same output. The measures are the milli-value
    (CPU request), the value in bytes (memory request and memory limit) and
    the milli-value times 1,000,000 computed in [int64] (CPU limit), which
    is the exact product whenever that fits in 64 bits. *)
Theorem C5_resource_fields (resources : ResourceRequirements) (h : Heap) :
  let r := resourceRequirementsOf resources in
  setResourceRequirements resources h
  = (Heap_modifyHostConfig (set_Resources r) h, Ok tt)
  ∧ CPUShares r = entryOrZero MilliValue (Requests resources) ResourceCPU
  ∧ MemoryReservation r = entryOrZero Value (Requests resources) ResourceMemory
  ∧ NanoCPUs r = entryOrZero nanoCPUsOf (Limits resources) ResourceCPU
  ∧ Memory r = entryOrZero Value (Limits resources) ResourceMemory
  ∧ (CPUShares r ≠ 0 →
       ∃ l q, Requests resources = Some l ∧ l !! ResourceCPU = Some q)
  ∧ (MemoryReservation r ≠ 0 →
       ∃ l q, Requests resources = Some l ∧ l !! ResourceMemory = Some q)
  ∧ (NanoCPUs r ≠ 0 →
       ∃ l q, Limits resources = Some l ∧ l !! ResourceCPU = Some q)
  ∧ (Memory r ≠ 0 →
       ∃ l q, Limits resources = Some l ∧ l !! ResourceMemory = Some q)
  ∧ (∀ q, - 2 ^ 63 ≤ MilliValue q * 1000000 < 2 ^ 63 →
       nanoCPUsOf q = MilliValue q * 1000000).
Proof.
  intros r.
  assert (CPUShares r = entryOrZero MilliValue (Requests resources) ResourceCPU
          ∧ MemoryReservation r
            = entryOrZero Value (Requests resources) ResourceMemory
          ∧ NanoCPUs r = entryOrZero nanoCPUsOf (Limits resources) ResourceCPU
          ∧ Memory r = entryOrZero Value (Limits resources) ResourceMemory)
    as (Hs & Hr & Hn & Hm).
  { subst r. unfold resourceRequirementsOf, entryOrZero.
    destruct (Requests resources) as [requests|],
             (Limits resources) as [limits|]; simpl.
    - destruct (limits_loop limits
                  (foldl requestsStep Resources_zero (map_to_list requests)))
        as (-> & -> & -> & ->).
      destruct (requests_loop requests Resources_zero) as (-> & -> & -> & ->).
      repeat split; by case_match.
    - destruct (requests_loop requests Resources_zero) as (-> & -> & -> & ->).
      repeat split; by case_match.
    - destruct (limits_loop limits Resources_zero) as (-> & -> & -> & ->).
      repeat split; by case_match.
    - done. }
  split; [done |].
  do 4 (split; [done |]).
  split; [| split; [| split; [| split]]].
  - rewrite Hs. intros (l & q & ? & ? & _)%entryOrZero_nonzero. eauto.
  - rewrite Hr. intros (l & q & ? & ? & _)%entryOrZero_nonzero. eauto.
  - rewrite Hn. intros (l & q & ? & ? & _)%entryOrZero_nonzero. eauto.
  - rewrite Hm. intros (l & q & ? & ? & _)%entryOrZero_nonzero. eauto.
  - intros q Hq. by apply wrap64_id.
Qed.

(* =================================================================== *)
(** ** Ports *)
(* =================================================================== *)

Lemma pretty_N_go_noSlash (x : N) (s : string) :
  noSlash s → noSlash (pretty_N_go x s).
Proof.
  revert s. induction (N.lt_wf_0 x) as [x _ IH]; intros s Hs.
  destruct (decide (x = 0%N)) as [-> | Hx].
  - by rewrite pretty_N_go_0.
  - rewrite pretty_N_go_step by lia. apply IH.
    + apply N.div_lt; lia.
    + split; [| done]. unfold pretty_N_char. by repeat case_match.
Qed.

(** The decimal rendering of a number that is not negative has no ["/"]. *)
Lemma Itoa_noSlash (z : Z) : 0 ≤ z → noSlash (Itoa z).
Proof.
  intros Hz. unfold Itoa, pretty, pretty_Z.
  destruct z as [|p|p]; [by simpl | | lia].
  unfold pretty, pretty_positive, pretty, pretty_N.
  case_decide; [done |]. by apply pretty_N_go_noSlash.
Qed.

(** Two strings of the form ["<s>/<t>"] with no ["/"] in [<s>] are equal
    only if their parts are. *)
Lemma split_at_slash (s1 s2 t1 t2 : string) :
  noSlash s1 → noSlash s2 →
  s1 +:+ "/" +:+ t1 = s2 +:+ "/" +:+ t2 → s1 = s2 ∧ t1 = t2.
Proof.
  revert s2. induction s1 as [|c1 s1 IH]; intros [|c2 s2] H1 H2;
    rewrite ?append_String, ?append_EmptyString; intros Heq.
  - by simplify_eq.
  - simplify_eq. by destruct H2.
  - simplify_eq. by destruct H1.
  - injection Heq as -> Heq. destruct H1 as [_ H1], H2 as [_ H2].
    destruct (IH s2 H1 H2 Heq) as [-> ->]. done.
Qed.

(** Distinct (protocol, container port) pairs have distinct keys. *)
Lemma portKey_inj (port1 port2 : ContainerPort) :
  0 ≤ ContainerPort_ContainerPort port1 →
  0 ≤ ContainerPort_ContainerPort port2 →
  portKey port1 = portKey port2 →
  ContainerPort_ContainerPort port1 = ContainerPort_ContainerPort port2
  ∧ Protocol port1 = Protocol port2.
Proof.
  intros H1 H2 Hkey. unfold portKey in Hkey.
  apply split_at_slash in Hkey as [HItoa Hproto]; auto using Itoa_noSlash.
  split; [| done]. by apply (inj pretty).
Qed.

Lemma NewPort_portKey (port : ContainerPort) :
  0 ≤ ContainerPort_ContainerPort port ≤ 65535 →
  NewPort (Protocol port) (ContainerPort_ContainerPort port)
  = Found (portKey port).
Proof. intros Hrange. unfold NewPort. by rewrite bool_decide_eq_true_2. Qed.

Lemma lastPublished_Some (key : string) (ports : list ContainerPort)
    (port : ContainerPort) :
  lastPublished key ports = Some port →
  port ∈ ports ∧ HostPort port ≠ 0 ∧ portKey port = key.
Proof.
  induction ports as [|port0 ports IH]; simpl; [done |].
  destruct (lastPublished key ports) as [later|].
  - intros [= ->]. destruct IH as (? & ? & ?); [done |].
    split; [by right | done].
  - case_bool_decide as Hport0; [| done]. intros [= ->].
    destruct Hport0. split; [by left | done].
Qed.

Lemma lastPublished_None (key : string) (ports : list ContainerPort) :
  lastPublished key ports = None →
  ∀ port, port ∈ ports → HostPort port ≠ 0 → portKey port ≠ key.
Proof.
  induction ports as [|port0 ports IH]; simpl.
  - intros _ port Hin. by apply elem_of_nil in Hin.
  - destruct (lastPublished key ports) as [later|]; [done |].
    case_bool_decide as Hport0; [done |]. intros _ port Hin Hhost Hkey.
    apply elem_of_cons in Hin as [-> | Hin]; [by apply Hport0 |].
    by apply (IH eq_refl port).
Qed.

Lemma lastPublished_app (key : string) (before after : list ContainerPort) :
  lastPublished key (before ++ after)
  = match lastPublished key after with
    | Some later => Some later
    | None => lastPublished key before
    end.
Proof.
  induction before as [|port0 before IH]; simpl.
  - by destruct (lastPublished key after).
  - rewrite IH. by destruct (lastPublished key after).
Qed.

(** The loop of [setHostPorts], from any two maps: on a well-formed list
    it ends without an error; a key then holds the single binding of the
    last port that has it, or what it held before the loop; the keys of
    the set are those of the ports that name a host port, and the ones it
    had before. *)
Lemma setHostPorts_loop_spec (ports : list ContainerPort)
    (containerPortMaps : gmap string (list PortBinding))
    (containerExposedPorts : gset string) :
  wellFormedPorts ports →
  ∃ portMaps exposed,
    setHostPorts_loop ports containerPortMaps containerExposedPorts
    = Found (portMaps, exposed)
    ∧ (∀ key, portMaps !! key
              = match lastPublished key ports with
                | Some port => Some [hostBindingOf port]
                | None => containerPortMaps !! key
                end)
    ∧ (∀ key, key ∈ exposed
              ↔ is_Some (lastPublished key ports) ∨ key ∈ containerExposedPorts).
Proof.
  revert containerPortMaps containerExposedPorts.
  induction ports as [|port ports IH]; intros portMaps0 exposed0 Hwf.
  { eexists _, _. split; [done |]. split; [done |].
    intros key. simpl. split; [by right |].
    by intros [[? [=]] | ?]. }
  apply Forall_cons in Hwf as [Hport Hwf]. cbn [setHostPorts_loop].
  case_bool_decide as Hhost.
  - rewrite NewPort_portKey by auto.
    destruct (IH (<[portKey port := [hostBindingOf port]]> portMaps0)
                 ({[portKey port]} ∪ exposed0) Hwf)
      as (portMaps & exposed & Hloop & Hmaps & Hexposed).
    exists portMaps, exposed. split; [exact Hloop |]. split.
    + intros key. rewrite Hmaps. simpl.
      destruct (lastPublished key ports) as [later|]; [done |].
      case_bool_decide as Hkey.
      * destruct Hkey as [_ <-]. by rewrite lookup_insert_eq.
      * rewrite lookup_insert_ne; [done |]. intros Heq. by apply Hkey.
    + intros key. rewrite Hexposed. simpl.
      destruct (lastPublished key ports) as [later|].
      { split; intros _; left; eauto. }
      case_bool_decide as Hkey.
      * destruct Hkey as [_ <-]. split; intros _; [left; eauto | right].
        apply elem_of_union. left. by apply elem_of_singleton.
      * split.
        -- intros [[? [=]] | Hin]. right.
           apply elem_of_union in Hin as [Hin%elem_of_singleton | Hin];
             [| done].
           destruct Hkey. by split.
        -- intros [[? [=]] | Hin]. right. apply elem_of_union. by right.
  - destruct (IH portMaps0 exposed0 Hwf)
      as (portMaps & exposed & Hloop & Hmaps & Hexposed).
    exists portMaps, exposed. split; [exact Hloop |]. split.
    + intros key. rewrite Hmaps. simpl.
      destruct (lastPublished key ports) as [later|]; [done |].
      rewrite bool_decide_eq_false_2; [done |]. by intros [? _].
    + intros key. rewrite Hexposed. simpl.
      destruct (lastPublished key ports) as [later|]; [done |].
      rewrite bool_decide_eq_false_2; [done |]. by intros [? _].
Qed.

(** C7, as the code has it. On a well-formed port list [setHostPorts]
    returns no error and stores a set of exposed ports and a map of port
    bindings such that: the exposed keys are exactly the keys
    ["<C>/<proto>"] of the ports with a non-zero host port, and the bound
    keys are the same ones; every bound key holds exactly one binding, the
    wildcard address with the host port of a declared port of that key; a
    port with non-zero host port [P] has its key bound to
    [("0.0.0.0", P)] provided no later port with a non-zero host port has
    the same protocol and container port (the assignment of a later port
    replaces the binding of an earlier one); and when no port has a
    non-zero host port both the map and the set are empty. *)
Theorem C7_host_ports (ports : list ContainerPort) (h : Heap) :
  wellFormedPorts ports →
  ∃ (portMaps : gmap string (list PortBinding)) (exposed : gset string),
    setHostPorts ports h
    = (Heap_modifyHostConfig (set_PortBindings portMaps)
         (Heap_modifyConfig (set_ExposedPorts exposed) h), Ok tt)
    ∧ (∀ key, key ∈ exposed
              ↔ ∃ port, port ∈ ports ∧ HostPort port ≠ 0 ∧ portKey port = key)
    ∧ dom portMaps = exposed
    ∧ (∀ port1 port2,
         port1 ∈ ports → port2 ∈ ports →
         HostPort port1 ≠ 0 → HostPort port2 ≠ 0 →
         portKey port1 = portKey port2 →
         Protocol port1 = Protocol port2
         ∧ ContainerPort_ContainerPort port1 = ContainerPort_ContainerPort port2)
    ∧ (∀ key bindings,
         portMaps !! key = Some bindings →
         ∃ port, port ∈ ports ∧ HostPort port ≠ 0 ∧ portKey port = key
                 ∧ bindings = [hostBindingOf port])
    ∧ (∀ before port after,
         ports = before ++ port :: after →
         HostPort port ≠ 0 →
         (∀ later, later ∈ after → HostPort later ≠ 0 →
            (Protocol later, ContainerPort_ContainerPort later)
            ≠ (Protocol port, ContainerPort_ContainerPort port)) →
         portMaps !! portKey port = Some [hostBindingOf port])
    ∧ ((∀ port, port ∈ ports → HostPort port = 0) →
         portMaps = ∅ ∧ exposed = ∅).
Proof.
  intros Hwf.
  destruct (setHostPorts_loop_spec ports ∅ ∅ Hwf)
    as (portMaps & exposed & Hloop & Hmaps & Hexposed).
  assert (∀ key, is_Some (lastPublished key ports)
                 ↔ ∃ port, port ∈ ports ∧ HostPort port ≠ 0
                           ∧ portKey port = key) as Hlast.
  { intros key. split.
    - intros [port Hport]. exists port. by apply lastPublished_Some.
    - intros (port & Hin & Hhost & Hkey).
      destruct (lastPublished key ports) as [later|] eqn:Hnone; [eauto |].
      by destruct (lastPublished_None key ports Hnone port). }
  exists portMaps, exposed.
  split; [| split; [| split; [| split; [| split; [| split]]]]].
  - unfold setHostPorts. by rewrite Hloop.
  - intros key. rewrite Hexposed, <- Hlast. split; [| by left].
    intros [? | Hin]; [done |]. by apply not_elem_of_empty in Hin.
  - apply set_eq. intros key. rewrite elem_of_dom, Hmaps, Hexposed.
    destruct (lastPublished key ports) as [later|].
    + split; intros _; [left |]; eauto.
    + rewrite lookup_empty. split.
      * by intros [? [=]].
      * intros [[? [=]] | Hin]. by apply not_elem_of_empty in Hin.
  - intros port1 port2 Hin1 Hin2 Hhost1 Hhost2 Hkey.
    unfold wellFormedPorts in Hwf. rewrite Forall_forall in Hwf.
    apply portKey_inj in Hkey as [Hc Hp];
      [done | by apply (Hwf port1) | by apply (Hwf port2)].
  - intros key bindings. rewrite Hmaps.
    destruct (lastPublished key ports) as [later|] eqn:Hlater.
    + intros [= <-]. exists later.
      destruct (lastPublished_Some key ports later Hlater) as (? & ? & ?).
      done.
    + by rewrite lookup_empty.
  - intros before port after -> Hhost Hlater.
    rewrite Hmaps, lastPublished_app. simpl.
    destruct (lastPublished (portKey port) after) as [later|] eqn:Hafter.
    + destruct (lastPublished_Some _ _ _ Hafter) as (Hin & Hhost' & Hkey).
      apply Forall_app in Hwf as [_ [Hport Hwf]%Forall_cons].
      rewrite Forall_forall in Hwf.
      apply portKey_inj in Hkey as [Hc Hp];
        [| by apply (Hwf later) | by apply Hport].
      destruct (Hlater later Hin Hhost'). by rewrite Hc, Hp.
    + by rewrite bool_decide_eq_true_2.
  - intros Hnone.
    assert (∀ key, lastPublished key ports = None) as Hnever.
    { intros key. destruct (lastPublished key ports) as [port|] eqn:Hport;
        [| done].
      destruct (lastPublished_Some _ _ _ Hport) as (Hin & Hhost & _).
      by destruct Hhost, (Hnone port). }
    split.
    + apply map_eq. intros key. by rewrite Hmaps, Hnever.
    + apply set_eq. intros key. rewrite Hexposed, Hnever.
      split; [| by intros Hin%not_elem_of_empty].
      by intros [[? [=]] | Hin].
Qed.

(* =================================================================== *)
(** ** Volume mounts *)
(* =================================================================== *)

Lemma forEach_ext {A : Type} (l : list A) (body body' : A → Go unit) (h : Heap) :
  (∀ x h', body x h' = body' x h') → forEach l body h = forEach l body' h.
Proof.
  intros Hext. revert h. induction l as [|x l IH]; intros h; simpl; [done |].
  unfold mbind, Go_bind. rewrite Hext.
  destruct (body' x h) as [h' [[]|err|msg]]; auto.
Qed.

(** The inner loop handles the first mount of the volume's name, if there
    is one, and nothing else. *)
Lemma setVolumeMounts_inner_firstMount
    (volume : Volume) (volumeMounts : list VolumeMount) :
  setVolumeMounts_inner volume volumeMounts
  = match firstMount volume volumeMounts with
    | Some volumeMount => handleVolumeSource volume volumeMount
    | None => mret tt
    end.
Proof.
  unfold firstMount.
  induction volumeMounts as [|volumeMount volumeMounts IH]; simpl; [done |].
  by destruct (bool_decide _).
Qed.

Lemma firstMount_Some (volume : Volume) (volumeMounts : list VolumeMount)
    (volumeMount : VolumeMount) :
  firstMount volume volumeMounts = Some volumeMount
  ↔ ∃ before after,
      volumeMounts = before ++ volumeMount :: after
      ∧ VolumeMount_Name volumeMount = Volume_Name volume
      ∧ ∀ other, other ∈ before → VolumeMount_Name other ≠ Volume_Name volume.
Proof.
  unfold firstMount. split.
  - induction volumeMounts as [|m volumeMounts IH]; simpl; [done |].
    case_bool_decide as Hname.
    + intros [= ->]. exists [], volumeMounts. split; [done |].
      split; [done |]. intros other Hin. by apply elem_of_nil in Hin.
    + intros (before & after & -> & Hmatch & Hbefore)%IH.
      exists (m :: before), after. split; [done |]. split; [done |].
      intros other [-> | Hin]%elem_of_cons; auto.
  - intros (before & after & -> & Hmatch & Hbefore).
    induction before as [|m before IH]; simpl.
    + by rewrite bool_decide_eq_true_2.
    + rewrite bool_decide_eq_false_2.
      * apply IH. intros other Hin. apply Hbefore. by right.
      * apply Hbefore. by left.
Qed.

Lemma firstMount_None (volume : Volume) (volumeMounts : list VolumeMount) :
  (∀ volumeMount, volumeMount ∈ volumeMounts →
                  VolumeMount_Name volumeMount ≠ Volume_Name volume) →
  firstMount volume volumeMounts = None.
Proof.
  intros Hnone. destruct (firstMount volume volumeMounts) as [m|] eqn:Hm;
    [| done].
  apply firstMount_Some in Hm as (before & after & -> & Hmatch & _).
  destruct (Hnone m); [| done].
  apply elem_of_app. right. by left.
Qed.

(** A volume backed by no store, mounted at one mount. *)
Lemma handleVolumeSource_storeFree
    (volume : Volume) (volumeMount : VolumeMount) (h : Heap) :
  storeFree volume →
  handleVolumeSource volume volumeMount h
  = match VolumeSource_HostPath (Volume_VolumeSource volume) with
    | Some hostPath =>
      appendBind (Path hostPath +:+ ":" +:+ MountPath volumeMount) h
    | None => (h, Ok tt)
    end.
Proof.
  intros [Hcm Hsec]. unfold handleVolumeSource. rewrite Hcm, Hsec.
  by destruct (VolumeSource_HostPath _).
Qed.

Lemma Heap_append_no_bind (h : Heap) :
  Heap_modifyHostConfig (λ hc, set_Binds (Binds hc ++ []) hc) h = h.
Proof.
  destruct h as [c [binds bindings policy privileged hosts resources] trace].
  unfold Heap_modifyHostConfig, set_Binds. simpl. by rewrite app_nil_r.
Qed.

Lemma Heap_append_binds (binds binds' : list string) (h : Heap) :
  Heap_modifyHostConfig (λ hc, set_Binds (Binds hc ++ binds') hc)
    (Heap_modifyHostConfig (λ hc, set_Binds (Binds hc ++ binds) hc) h)
  = Heap_modifyHostConfig (λ hc, set_Binds (Binds hc ++ binds ++ binds') hc) h.
Proof.
  unfold Heap_modifyHostConfig, set_Binds. simpl. by rewrite app_assoc.
Qed.

Lemma setVolumeMounts_storeFree
    (volumes : list Volume) (volumeMounts : list VolumeMount) (h : Heap) :
  Forall storeFree volumes →
  setVolumeMounts volumes volumeMounts h
  = (Heap_modifyHostConfig
       (λ hc, set_Binds (Binds hc ++ hostPathBinds volumes volumeMounts) hc) h,
     Ok tt).
Proof.
  unfold setVolumeMounts. revert h.
  induction volumes as [|volume volumes IH]; intros h Hfree; simpl.
  { by rewrite Heap_append_no_bind. }
  apply Forall_cons in Hfree as [Hvolume Hfree].
  unfold mbind, Go_bind. rewrite setVolumeMounts_inner_firstMount.
  destruct (firstMount volume volumeMounts) as [volumeMount|].
  - rewrite handleVolumeSource_storeFree by done.
    destruct (VolumeSource_HostPath _) as [hostPath|].
    + unfold appendBind, modifyHostConfig. rewrite IH by done.
      by rewrite Heap_append_binds.
    + by rewrite IH.
  - unfold mret, Go_ret. by rewrite IH.
Qed.

(** C2, as the code has it. The binds are produced volume by volume, in
    the order the volumes are declared: each declared volume is resolved
    against the first mount that carries its name, and a volume without
    such a mount contributes nothing. So a mount is resolved if and only
    if it is the first mount of the name of some declared volume, once for
    every declared volume of that name; for volumes backed by no store the
    binds appended are exactly ["<hostPath>:<mountPath>"] of each volume
    and its first mount; and mounts that name no declared volume produce
    no bind and no error. *)
Theorem C2_volume_mounts
    (volumes : list Volume) (volumeMounts : list VolumeMount) (h : Heap) :
  setVolumeMounts volumes volumeMounts h
  = forEach volumes (λ volume,
      match firstMount volume volumeMounts with
      | Some volumeMount => handleVolumeSource volume volumeMount
      | None => mret tt
      end) h
  ∧ (∀ volume volumeMount,
       firstMount volume volumeMounts = Some volumeMount
       ↔ ∃ before after,
           volumeMounts = before ++ volumeMount :: after
           ∧ VolumeMount_Name volumeMount = Volume_Name volume
           ∧ ∀ other, other ∈ before →
               VolumeMount_Name other ≠ Volume_Name volume)
  ∧ (Forall storeFree volumes →
       setVolumeMounts volumes volumeMounts h
       = (Heap_modifyHostConfig
            (λ hc, set_Binds (Binds hc ++ hostPathBinds volumes volumeMounts) hc)
            h,
          Ok tt))
  ∧ ((∀ volume volumeMount,
        volume ∈ volumes → volumeMount ∈ volumeMounts →
        VolumeMount_Name volumeMount ≠ Volume_Name volume) →
       setVolumeMounts volumes volumeMounts h = (h, Ok tt)).
Proof.
  split; [| split; [| split]].
  - unfold setVolumeMounts. apply forEach_ext. intros volume h'.
    by rewrite setVolumeMounts_inner_firstMount.
  - intros volume volumeMount. apply firstMount_Some.
  - apply setVolumeMounts_storeFree.
  - unfold setVolumeMounts. revert h.
    induction volumes as [|volume volumes IH]; intros h Hnone; simpl; [done |].
    unfold mbind, Go_bind. rewrite setVolumeMounts_inner_firstMount.
    rewrite firstMount_None.
    + unfold mret, Go_ret. apply IH. intros v m Hv. apply Hnone. by right.
    + intros m. apply Hnone. by left.
Qed.

(* =================================================================== *)
(** ** Further properties: the field mappers *)
(* =================================================================== *)

Lemma setRestartPolicy_eq (restartPolicy : string) (h : Heap) :
  setRestartPolicy restartPolicy h
  = (Heap_modifyHostConfig
       (set_RestartPolicy
          {| RestartPolicy_Name := restartPolicyName restartPolicy |}) h,
     Ok tt).
Proof.
  unfold setRestartPolicy, restartPolicyName.
  destruct (String.eqb restartPolicy "OnFailure") eqn:Hfailure.
  { apply String.eqb_eq in Hfailure as ->. done. }
  apply String.eqb_neq in Hfailure.
  rewrite (bool_decide_eq_false_2 _ Hfailure).
  destruct (String.eqb restartPolicy "Never") eqn:Hnever.
  { apply String.eqb_eq in Hnever as ->. done. }
  apply String.eqb_neq in Hnever.
  by rewrite (bool_decide_eq_false_2 _ Hnever).
Qed.

Lemma setSecurityContext_eq
    (podSecurityContext : option PodSecurityContext)
    (containerSecurityContext : option SecurityContext) (h : Heap) :
  setSecurityContext podSecurityContext containerSecurityContext h
  = (Heap_modifyHostConfig
       (set_Privileged
          (privilegedAfter podSecurityContext containerSecurityContext
             (Privileged (hostConfig h))))
       (Heap_modifyConfig
          (set_User (userAfter podSecurityContext (User (containerConfig h))))
          h),
     Ok tt).
Proof.
  destruct h as [[] [] trace].
  destruct podSecurityContext as [[[runAsUser|] [runAsGroup|]]|],
           containerSecurityContext as [[[flag|]]|]; reflexivity.
Qed.

Lemma setCommandAndArgs_eq (command args : list string) (h : Heap) :
  setCommandAndArgs command args h
  = (Heap_modifyConfig
       (λ c, set_Cmd (if args is [] then Cmd c else args)
               (set_Entrypoint
                  (if command is [] then Entrypoint c else command) c)) h,
     Ok tt).
Proof.
  destruct h as [[] hc trace]. unfold setCommandAndArgs.
  by destruct command, args.
Qed.

(** X18. The restart policy is mapped onto three names and never left empty:
    ["OnFailure"] and ["Never"], spelled exactly so, have their own, every
    other value, the empty one included, means always; nothing else of the
    heap changes. *)
Theorem setRestartPolicy_three_names (restartPolicy : string) (h : Heap) :
  setRestartPolicy restartPolicy h
  = (Heap_modifyHostConfig
       (set_RestartPolicy
          {| RestartPolicy_Name := restartPolicyName restartPolicy |}) h,
     Ok tt)
  ∧ restartPolicyName restartPolicy ∈ ["on-failure"; "no"; "always"]
  ∧ (restartPolicyName restartPolicy = "on-failure"
     ↔ restartPolicy = "OnFailure")
  ∧ (restartPolicyName restartPolicy = "no" ↔ restartPolicy = "Never")
  ∧ (restartPolicyName restartPolicy = "always"
     ↔ restartPolicy ≠ "OnFailure" ∧ restartPolicy ≠ "Never").
Proof.
  split; [apply setRestartPolicy_eq |].
  unfold restartPolicyName.
  destruct (decide (restartPolicy = "OnFailure")) as [-> | Hfailure].
  { simpl. split; [by left |]. repeat split; try done. by intros [? _]. }
  rewrite (bool_decide_eq_false_2 _ Hfailure).
  destruct (decide (restartPolicy = "Never")) as [-> | Hnever].
  { simpl. split; [right; by left |]. repeat split; try done.
    by intros [_ ?]. }
  rewrite (bool_decide_eq_false_2 _ Hnever).
  split; [right; right; by left |]. repeat split; done.
Qed.

(** The command and the arguments are taken over independently of each
    other, each only when it is not empty. *)
Theorem setCommandAndArgs_overrides (command args : list string) (h : Heap) :
  ∃ h',
    setCommandAndArgs command args h = (h', Ok tt)
    ∧ Entrypoint (containerConfig h')
      = (if command is [] then Entrypoint (containerConfig h) else command)
    ∧ Cmd (containerConfig h')
      = (if args is [] then Cmd (containerConfig h) else args)
    ∧ Env (containerConfig h') = Env (containerConfig h)
    ∧ Config_Image (containerConfig h') = Config_Image (containerConfig h)
    ∧ User (containerConfig h') = User (containerConfig h)
    ∧ hostConfig h' = hostConfig h
    ∧ calls h' = calls h.
Proof.
  unfold setCommandAndArgs.
  destruct command as [|c command], args as [|a args]; eexists;
    (split; [reflexivity |]); done.
Qed.

(** X17. What [setSecurityContext] does in full: it never fails, and it changes
    the user and the privileged flag only. With a pod-level context the user
    is set only when both ids are given, and the container-level flag is
    copied as it is, so an explicit [false] clears a flag that was set. *)
Theorem setSecurityContext_changes
    (podSecurityContext : option PodSecurityContext)
    (containerSecurityContext : option SecurityContext) (h : Heap) :
  setSecurityContext podSecurityContext containerSecurityContext h
  = (Heap_modifyHostConfig
       (set_Privileged
          (privilegedAfter podSecurityContext containerSecurityContext
             (Privileged (hostConfig h))))
       (Heap_modifyConfig
          (set_User (userAfter podSecurityContext (User (containerConfig h))))
          h),
     Ok tt)
  ∧ (∀ pod, podSecurityContext = Some pod →
       RunAsUser pod = None ∨ RunAsGroup pod = None →
       userAfter podSecurityContext (User (containerConfig h))
       = User (containerConfig h))
  ∧ (∀ pod flag, podSecurityContext = Some pod →
       containerSecurityContext
       = Some {| SecurityContext_Privileged := Some flag |} →
       privilegedAfter podSecurityContext containerSecurityContext
         (Privileged (hostConfig h)) = flag)
  ∧ (containerSecurityContext = None →
       privilegedAfter podSecurityContext containerSecurityContext
         (Privileged (hostConfig h)) = Privileged (hostConfig h)).
Proof.
  split; [| split; [| split]].
  - apply setSecurityContext_eq.
  - intros [runAsUser runAsGroup] -> [Hnone | Hnone]; simpl in *; subst;
      [done |]. by destruct runAsUser.
  - by intros pod flag -> ->.
  - intros ->. by destruct podSecurityContext.
Qed.

(** The loop of [setHostPorts] returns an error exactly on the lists that
    are not well formed. *)
Lemma setHostPorts_loop_Failed (ports : list ContainerPort)
    (containerPortMaps : gmap string (list PortBinding))
    (containerExposedPorts : gset string) :
  (∃ err, setHostPorts_loop ports containerPortMaps containerExposedPorts
          = Failed err)
  ↔ ¬ wellFormedPorts ports.
Proof.
  revert containerPortMaps containerExposedPorts.
  induction ports as [|port ports IH]; intros portMaps exposed.
  { split; [by intros [err [=]] |]. intros Hnot. destruct Hnot. constructor. }
  cbn [setHostPorts_loop]. unfold wellFormedPorts in *.
  case_bool_decide as Hhost.
  - destruct (decide (0 ≤ ContainerPort_ContainerPort port ≤ 65535))
      as [Hrange | Hrange].
    + rewrite NewPort_portKey by done. rewrite IH. rewrite Forall_cons.
      split; [intros Hnot [_ Hwf]; by apply Hnot |].
      intros Hnot Hwf. apply Hnot. by split.
    + unfold NewPort. rewrite bool_decide_eq_false_2 by done.
      split; [| eauto]. intros _ [Hport _]%Forall_cons. by apply Hrange, Hport.
  - rewrite IH. rewrite Forall_cons.
    split; [intros Hnot [_ Hwf]; by apply Hnot |].
    intros Hnot Hwf. apply Hnot. by split.
Qed.

(** X6. [setHostPorts] fails exactly when some port that names a host port has
    a container port outside 0..65535; the error is the one of the parser,
    not wrapped, and neither the exposed ports nor the port bindings are
    assigned. A list that is well formed never fails. *)
Theorem setHostPorts_fails_on_unparseable (ports : list ContainerPort) (h : Heap) :
  (¬ wellFormedPorts ports → ∃ err, setHostPorts ports h = (h, Err err))
  ∧ (∀ h' err, setHostPorts ports h = (h', Err err) →
       ¬ wellFormedPorts ports ∧ h' = h)
  ∧ (∀ h' msg, setHostPorts ports h ≠ (h', Panic msg)).
Proof.
  unfold setHostPorts.
  destruct (setHostPorts_loop ports ∅ ∅) as [[portMaps exposed]|err] eqn:Hloop.
  - assert (wellFormedPorts ports) as Hwf.
    { destruct (setHostPorts_loop_Failed ports ∅ ∅) as [_ Hfailed].
      apply dec_stable. intros Hnot.
      destruct (Hfailed Hnot) as [err Herr]. congruence. }
    split; [done |]. split; by intros.
  - split; [eauto |]. split.
    + intros h' err' [= <- <-]. split; [| done].
      apply (setHostPorts_loop_Failed ports ∅ ∅). eauto.
    + by intros.
Qed.

(* =================================================================== *)
(** ** Further properties: the environment *)
(* =================================================================== *)

Lemma Heap_appendEnv_nil (h : Heap) : Heap_appendEnv [] h = h.
Proof.
  destruct h as [[] hc trace]. unfold Heap_appendEnv, Heap_modifyConfig, set_Env.
  simpl. by rewrite app_nil_r.
Qed.

Lemma Heap_appendEnv_app (entries entries' : list string) (h : Heap) :
  Heap_appendEnv entries' (Heap_appendEnv entries h)
  = Heap_appendEnv (entries ++ entries') h.
Proof.
  unfold Heap_appendEnv, Heap_modifyConfig, set_Env. simpl.
  by rewrite app_assoc.
Qed.

Lemma Heap_appendBinds_nil (h : Heap) : Heap_appendBinds [] h = h.
Proof. apply Heap_append_no_bind. Qed.

Lemma Heap_appendBinds_app (binds binds' : list string) (h : Heap) :
  Heap_appendBinds binds' (Heap_appendBinds binds h)
  = Heap_appendBinds (binds ++ binds') h.
Proof. apply Heap_append_binds. Qed.

(** A loop that appends one entry per element appends them in the order of
    the elements. *)
Lemma forEach_appendEnv {A : Type} (l : list A) (entry : A → string) (h : Heap) :
  forEach l (λ x, appendEnv (entry x)) h
  = (Heap_appendEnv (entry <$> l) h, Ok tt).
Proof.
  revert h. induction l as [|x l IH]; intros h; cbn [forEach fmap list_fmap].
  - by rewrite Heap_appendEnv_nil.
  - unfold mbind, Go_bind, appendEnv, modifyConfig. rewrite IH.
    pose proof (Heap_appendEnv_app [entry x] (entry <$> l) h) as Happ.
    cbn [app] in Happ. by rewrite <- Happ.
Qed.

Lemma forEach_appendBind {A : Type} (l : list A) (bind : A → string) (h : Heap) :
  forEach l (λ x, appendBind (bind x)) h
  = (Heap_appendBinds (bind <$> l) h, Ok tt).
Proof.
  revert h. induction l as [|x l IH]; intros h; cbn [forEach fmap list_fmap].
  - by rewrite Heap_appendBinds_nil.
  - unfold mbind, Go_bind, appendBind, modifyHostConfig. rewrite IH.
    pose proof (Heap_appendBinds_app [bind x] (bind <$> l) h) as Happ.
    cbn [app] in Happ. by rewrite <- Happ.
Qed.

Lemma forEach_app {A : Type} (l l' : list A) (body : A → Go unit) (h : Heap) :
  forEach (l ++ l') body h = (forEach l body ;; forEach l' body) h.
Proof.
  revert h. induction l as [|x l IH]; intros h; simpl; [done |].
  unfold mbind, Go_bind in *.
  destruct (body x h) as [h1 [[]|err|msg]]; [| done | done].
  apply IH.
Qed.

(** The entries of the data of a resource: one per key, each the key and
    its value. *)
Lemma dataEntries_spec (data : gmap string string) :
  length (dataEntries data) = size data
  ∧ ∀ entry, entry ∈ dataEntries data
             ↔ ∃ key value, data !! key = Some value
                            ∧ entry = key +:+ "=" +:+ value.
Proof.
  unfold dataEntries. split.
  - by rewrite length_fmap, length_map_to_list.
  - intros entry. rewrite list_elem_of_fmap. split.
    + intros ([key value] & -> & Hin%elem_of_map_to_list). eauto.
    + intros (key & value & Hlookup & ->). exists (key, value).
      split; [done |]. by apply elem_of_map_to_list.
Qed.

(** The binds of a bind mapping: one per file, each the host path of the
    file and its place under the root. *)
Lemma bindsUnder_spec (root : string) (binds : gmap string string) :
  length (bindsUnder root binds) = size binds
  ∧ ∀ bind, bind ∈ bindsUnder root binds
            ↔ ∃ file hostPath, binds !! file = Some hostPath
                               ∧ bind = hostPath +:+ ":" +:+ path_Join root file.
Proof.
  unfold bindsUnder. split.
  - by rewrite length_fmap, length_map_to_list.
  - intros bind. rewrite list_elem_of_fmap. split.
    + intros ([file hostPath] & -> & Hin%elem_of_map_to_list). eauto.
    + intros (file & hostPath & Hlookup & ->). exists (file, hostPath).
      split; [done |]. by apply elem_of_map_to_list.
Qed.

(** X9. An env-from entry that names a config map, or else a secret, that the
    store has: one call on the store, and one entry ["KEY=VALUE"] for every
    key of the data, nothing else. *)
Theorem handleValueFromEnvFromSource_expands (env : EnvFromSource) (h : Heap) :
  (∀ name configMap,
     ConfigMapRef env = Some name →
     GetConfigMap (configMapStore converter) name = Found configMap →
     handleValueFromEnvFromSource env h
     = (Heap_appendEnv (dataEntries (ConfigMap_Data configMap))
          (Heap_call (CallGetConfigMap name) h), Ok tt)
     ∧ length (dataEntries (ConfigMap_Data configMap))
       = size (ConfigMap_Data configMap)
     ∧ ∀ entry, entry ∈ dataEntries (ConfigMap_Data configMap)
                ↔ ∃ key value, ConfigMap_Data configMap !! key = Some value
                               ∧ entry = key +:+ "=" +:+ value)
  ∧ (∀ name secret,
       ConfigMapRef env = None →
       SecretRef env = Some name →
       GetSecret (secretStore converter) name = Found secret →
       handleValueFromEnvFromSource env h
       = (Heap_appendEnv (dataEntries (Secret_Data secret))
            (Heap_call (CallGetSecret name) h), Ok tt)
       ∧ length (dataEntries (Secret_Data secret)) = size (Secret_Data secret)
       ∧ ∀ entry, entry ∈ dataEntries (Secret_Data secret)
                  ↔ ∃ key value, Secret_Data secret !! key = Some value
                                 ∧ entry = key +:+ "=" +:+ value).
Proof.
  split.
  - intros name configMap Href Hget.
    split; [| apply dataEntries_spec].
    unfold handleValueFromEnvFromSource. rewrite Href.
    unfold callGetConfigMap, call, mbind, Go_bind. rewrite Hget.
    unfold forRange, dataEntries. apply forEach_appendEnv.
  - intros name secret Hnone Href Hget.
    split; [| apply dataEntries_spec].
    unfold handleValueFromEnvFromSource. rewrite Hnone, Href.
    unfold callGetSecret, call, mbind, Go_bind. rewrite Hget.
    unfold forRange, dataEntries. apply forEach_appendEnv.
Qed.

(** X10. An env-from entry whose resource the store does not have returns the
    error of the store under the name of the resource and appends nothing;
    when it names both a config map and a secret only the config map is
    looked up; when it names neither, nothing happens. *)
Theorem handleValueFromEnvFromSource_fails (env : EnvFromSource) (h : Heap) :
  (∀ name err,
     ConfigMapRef env = Some name →
     GetConfigMap (configMapStore converter) name = Failed err →
     handleValueFromEnvFromSource env h
     = (Heap_call (CallGetConfigMap name) h,
        Err (Errorf ("unable to get configmap " +:+ name) err)))
  ∧ (∀ name err,
       ConfigMapRef env = None →
       SecretRef env = Some name →
       GetSecret (secretStore converter) name = Failed err →
       handleValueFromEnvFromSource env h
       = (Heap_call (CallGetSecret name) h,
          Err (Errorf ("unable to get secret " +:+ name) err)))
  ∧ (∀ name, ConfigMapRef env = Some name →
       calls (handleValueFromEnvFromSource env h).1
       = calls h ++ [CallGetConfigMap name])
  ∧ (ConfigMapRef env = None → SecretRef env = None →
       handleValueFromEnvFromSource env h = (h, Ok tt)).
Proof.
  unfold handleValueFromEnvFromSource, callGetConfigMap, callGetSecret, call,
         mbind, Go_bind.
  split; [| split; [| split]].
  - intros name err -> Hget. by rewrite Hget.
  - intros name err -> -> Hget. by rewrite Hget.
  - intros name ->.
    destruct (GetConfigMap _ name) as [configMap|err]; [| done].
    unfold forRange. by rewrite forEach_appendEnv.
  - by intros -> ->.
Qed.

(** X11. An indirect environment entry whose key the resource has gives
    ["NAME=VALUE"] with the value of the key; the literal value of the entry
    plays no part, and a config-map reference has precedence over a secret
    reference. An entry with a value source that is neither of the two is
    dropped: no entry, no store call, no error. *)
Theorem handleValueFromEnvVars_reads_key
    (env : EnvVar) (valueFrom : EnvVarSource) (h : Heap) :
  ValueFrom env = Some valueFrom →
  (∀ ref configMap value,
     ConfigMapKeyRef valueFrom = Some ref →
     GetConfigMap (configMapStore converter) (KeySelector_Name ref)
     = Found configMap →
     ConfigMap_Data configMap !! Key ref = Some value →
     handleValueFromEnvVars env h
     = (Heap_appendEnv [EnvVar_Name env +:+ "=" +:+ value]
          (Heap_call (CallGetConfigMap (KeySelector_Name ref)) h), Ok tt))
  ∧ (∀ ref secret value,
       ConfigMapKeyRef valueFrom = None →
       SecretKeyRef valueFrom = Some ref →
       GetSecret (secretStore converter) (KeySelector_Name ref) = Found secret →
       Secret_Data secret !! Key ref = Some value →
       handleValueFromEnvVars env h
       = (Heap_appendEnv [EnvVar_Name env +:+ "=" +:+ value]
            (Heap_call (CallGetSecret (KeySelector_Name ref)) h), Ok tt))
  ∧ (ConfigMapKeyRef valueFrom = None → SecretKeyRef valueFrom = None →
       handleValueFromEnvVars env h = (h, Ok tt)).
Proof.
  intros HvalueFrom. unfold handleValueFromEnvVars. rewrite HvalueFrom.
  go_unfold. simpl.
  split; [| split].
  - intros ref configMap value -> Hget Hkey. by rewrite Hget, Hkey.
  - intros ref secret value -> -> Hget Hkey. by rewrite Hget, Hkey.
  - by intros -> ->.
Qed.

(** The loop over the literal entries of [setEnvVars]. *)
Lemma forEach_literal (envs : list EnvVar) (h : Heap) :
  Forall (λ env, ValueFrom env = None) envs →
  forEach envs (λ env,
    match ValueFrom env with
    | Some _ => handleValueFromEnvVars env
    | None => appendEnv (EnvVar_Name env +:+ "=" +:+ EnvVar_Value env)
    end) h
  = (Heap_appendEnv (literalEntry <$> envs) h, Ok tt).
Proof.
  intros Hliteral. rewrite <- forEach_appendEnv.
  revert h. induction Hliteral as [|env envs Henv _ IH]; intros h; simpl;
    [done |].
  unfold mbind, Go_bind. rewrite Henv. unfold literalEntry at 1.
  destruct (appendEnv _ h) as [h1 [[]|err|msg]]; auto.
Qed.

(** X7. Literal environment entries are appended as ["NAME=VALUE"] in the order
    of the list, with no store call and no failure, and all of them before
    the first env-from entry is looked at. *)
Theorem setEnvVars_literals
    (envs : list EnvVar) (envFrom : list EnvFromSource) (h : Heap) :
  Forall (λ env, ValueFrom env = None) envs →
  setEnvVars envs envFrom h
  = forEach envFrom handleValueFromEnvFromSource
      (Heap_appendEnv (literalEntry <$> envs) h)
  ∧ setEnvVars envs [] h = (Heap_appendEnv (literalEntry <$> envs) h, Ok tt).
Proof.
  intros Hliteral. unfold setEnvVars, mbind, Go_bind.
  by rewrite forEach_literal.
Qed.

(** X8. [setEnvVars] stops at the first entry that fails: the literal entries
    before it are in the environment, the entries after it and the env-from
    entries are not looked at, and the only store call is the failed one. *)
Theorem setEnvVars_stops_at_failure
    (before after : list EnvVar) (env : EnvVar) (valueFrom : EnvVarSource)
    (ref : KeySelector) (err : error) (envFrom : list EnvFromSource) (h : Heap) :
  Forall (λ env, ValueFrom env = None) before →
  ValueFrom env = Some valueFrom →
  ConfigMapKeyRef valueFrom = Some ref →
  GetConfigMap (configMapStore converter) (KeySelector_Name ref) = Failed err →
  setEnvVars (before ++ env :: after) envFrom h
  = (Heap_call (CallGetConfigMap (KeySelector_Name ref))
       (Heap_appendEnv (literalEntry <$> before) h),
     Err (Errorf ("unable to get configmap " +:+ KeySelector_Name ref) err)).
Proof.
  intros Hliteral HvalueFrom Href Hget.
  unfold setEnvVars. unfold mbind at 1, Go_bind at 1.
  rewrite forEach_app. unfold mbind at 1, Go_bind at 1.
  rewrite forEach_literal by done. simpl.
  unfold mbind at 1, Go_bind at 1. rewrite HvalueFrom.
  unfold handleValueFromEnvVars. rewrite HvalueFrom. go_unfold. simpl.
  by rewrite Href, Hget.
Qed.

(* =================================================================== *)
(** ** Further properties: binds from the stores *)
(* =================================================================== *)

Lemma forRange_appendBind (root : string) (binds : gmap string string) (h : Heap) :
  forRange binds (λ containerBind hostBind,
    let bind := hostBind +:+ ":" +:+ path_Join root containerBind in
    appendBind bind) h
  = (Heap_appendBinds (bindsUnder root binds) h, Ok tt).
Proof. unfold forRange, bindsUnder. apply forEach_appendBind. Qed.

(** X12. The service-account step. When the store has the secret and its bind
    mapping, the step makes the two calls and appends one bind per file of
    the mapping, each under the service-account directory of the container;
    when the mapping cannot be produced, it returns the error of the store
    under the name of the secret and appends nothing. *)
Theorem setServiceAccountTokenAndCACert_binds (secret : Secret) (h : Heap) :
  GetSecret (secretStore converter) K2dServiceAccountSecretName = Found secret →
  (∀ binds,
     GetSecretBinds (secretStore converter) secret = Found binds →
     setServiceAccountTokenAndCACert h
     = (Heap_appendBinds (bindsUnder serviceAccountRoot binds)
          (Heap_call (CallGetSecretBinds (Secret_Name secret))
             (Heap_call (CallGetSecret K2dServiceAccountSecretName) h)),
        Ok tt)
     ∧ length (bindsUnder serviceAccountRoot binds) = size binds
     ∧ ∀ bind, bind ∈ bindsUnder serviceAccountRoot binds
               ↔ ∃ file hostPath,
                   binds !! file = Some hostPath
                   ∧ bind = hostPath +:+ ":"
                            +:+ path_Join serviceAccountRoot file)
  ∧ (∀ err,
       GetSecretBinds (secretStore converter) secret = Failed err →
       setServiceAccountTokenAndCACert h
       = (Heap_call (CallGetSecretBinds (Secret_Name secret))
            (Heap_call (CallGetSecret K2dServiceAccountSecretName) h),
          Err (Errorf ("unable to get binds for secrets "
                       +:+ K2dServiceAccountSecretName) err))).
Proof.
  intros Hget. unfold setServiceAccountTokenAndCACert.
  unfold callGetSecret, callGetSecretBinds, call, mbind, Go_bind.
  rewrite Hget. split.
  - intros binds Hbinds. split; [| apply bindsUnder_spec].
    rewrite Hbinds. apply forRange_appendBind.
  - intros err Hbinds. by rewrite Hbinds.
Qed.

(** X13. A volume backed by a config map, or else by a secret, whose resource
    and bind mapping the store has: the two calls are made and one bind per
    file of the mapping is appended, each under the mount path. *)
Theorem handleVolumeSource_store_backed
    (volume : Volume) (volumeMount : VolumeMount) (h : Heap) :
  (∀ source configMap binds,
     VolumeSource_ConfigMap (Volume_VolumeSource volume) = Some source →
     GetConfigMap (configMapStore converter) (ConfigMapVolumeSource_Name source)
     = Found configMap →
     GetConfigMapBinds (configMapStore converter) configMap = Found binds →
     handleVolumeSource volume volumeMount h
     = (Heap_appendBinds (bindsUnder (MountPath volumeMount) binds)
          (Heap_call (CallGetConfigMapBinds (ConfigMap_Name configMap))
             (Heap_call (CallGetConfigMap (ConfigMapVolumeSource_Name source))
                h)),
        Ok tt))
  ∧ (∀ source secret binds,
       VolumeSource_ConfigMap (Volume_VolumeSource volume) = None →
       VolumeSource_Secret (Volume_VolumeSource volume) = Some source →
       GetSecret (secretStore converter) (SecretName source) = Found secret →
       GetSecretBinds (secretStore converter) secret = Found binds →
       handleVolumeSource volume volumeMount h
       = (Heap_appendBinds (bindsUnder (MountPath volumeMount) binds)
            (Heap_call (CallGetSecretBinds (Secret_Name secret))
               (Heap_call (CallGetSecret (SecretName source)) h)),
          Ok tt))
  ∧ (∀ binds bind,
       bind ∈ bindsUnder (MountPath volumeMount) binds
       ↔ ∃ file hostPath,
           binds !! file = Some hostPath
           ∧ bind = hostPath +:+ ":"
                    +:+ path_Join (MountPath volumeMount) file).
Proof.
  unfold handleVolumeSource, callGetConfigMap, callGetConfigMapBinds,
         callGetSecret, callGetSecretBinds, call, mbind, Go_bind.
  split; [| split].
  - intros source configMap binds -> Hget Hbinds. rewrite Hget, Hbinds.
    apply forRange_appendBind.
  - intros source secret binds -> -> Hget Hbinds. rewrite Hget, Hbinds.
    apply forRange_appendBind.
  - intros binds. apply bindsUnder_spec.
Qed.

(** X14. The errors of a volume backed by a config map name the config map, at
    the lookup and at the bind mapping; the error of the lookup of a secret
    names the secret. Nothing is appended in any of these cases. *)
Theorem handleVolumeSource_errors
    (volume : Volume) (volumeMount : VolumeMount) (h : Heap) :
  (∀ source err,
     VolumeSource_ConfigMap (Volume_VolumeSource volume) = Some source →
     GetConfigMap (configMapStore converter) (ConfigMapVolumeSource_Name source)
     = Failed err →
     handleVolumeSource volume volumeMount h
     = (Heap_call (CallGetConfigMap (ConfigMapVolumeSource_Name source)) h,
        Err (Errorf ("unable to get configmap "
                     +:+ ConfigMapVolumeSource_Name source) err)))
  ∧ (∀ source configMap err,
       VolumeSource_ConfigMap (Volume_VolumeSource volume) = Some source →
       GetConfigMap (configMapStore converter)
         (ConfigMapVolumeSource_Name source) = Found configMap →
       GetConfigMapBinds (configMapStore converter) configMap = Failed err →
       handleVolumeSource volume volumeMount h
       = (Heap_call (CallGetConfigMapBinds (ConfigMap_Name configMap))
            (Heap_call (CallGetConfigMap (ConfigMapVolumeSource_Name source))
               h),
          Err (Errorf ("unable to get binds for configmap "
                       +:+ ConfigMapVolumeSource_Name source) err)))
  ∧ (∀ source err,
       VolumeSource_ConfigMap (Volume_VolumeSource volume) = None →
       VolumeSource_Secret (Volume_VolumeSource volume) = Some source →
       GetSecret (secretStore converter) (SecretName source) = Failed err →
       handleVolumeSource volume volumeMount h
       = (Heap_call (CallGetSecret (SecretName source)) h,
          Err (Errorf ("unable to get secret " +:+ SecretName source) err))).
Proof.
  unfold handleVolumeSource, callGetConfigMap, callGetConfigMapBinds,
         callGetSecret, callGetSecretBinds, call, mbind, Go_bind.
  split; [| split].
  - intros source err -> Hget. by rewrite Hget.
  - intros source configMap err -> Hget Hbinds. by rewrite Hget, Hbinds.
  - intros source err -> -> Hget. by rewrite Hget.
Qed.

(** X15. The three kinds of source are tried in the order config map, secret,
    host path, and the first that is set decides: a host path is bound
    without any store call, and a volume with none of the three (an empty
    directory, a claim) is passed over without a bind and without an
    error. *)
Theorem handleVolumeSource_without_store
    (volume : Volume) (volumeMount : VolumeMount) (h : Heap) :
  VolumeSource_ConfigMap (Volume_VolumeSource volume) = None →
  VolumeSource_Secret (Volume_VolumeSource volume) = None →
  (∀ hostPath,
     VolumeSource_HostPath (Volume_VolumeSource volume) = Some hostPath →
     handleVolumeSource volume volumeMount h
     = (Heap_appendBinds [Path hostPath +:+ ":" +:+ MountPath volumeMount] h,
        Ok tt))
  ∧ (VolumeSource_HostPath (Volume_VolumeSource volume) = None →
       handleVolumeSource volume volumeMount h = (h, Ok tt)).
Proof.
  intros Hcm Hsecret. rewrite handleVolumeSource_storeFree by done.
  split; [by intros hostPath -> | by intros ->].
Qed.

(** X16. [setVolumeMounts] stops at the first volume that fails: the binds of
    the volumes before it are in place, the volumes after it are not looked
    at. *)
Theorem setVolumeMounts_stops_at_failure
    (before after : list Volume) (volume : Volume)
    (volumeMounts : list VolumeMount) (volumeMount : VolumeMount)
    (source : ConfigMapVolumeSource) (err : error) (h : Heap) :
  Forall storeFree before →
  firstMount volume volumeMounts = Some volumeMount →
  VolumeSource_ConfigMap (Volume_VolumeSource volume) = Some source →
  GetConfigMap (configMapStore converter) (ConfigMapVolumeSource_Name source)
  = Failed err →
  setVolumeMounts (before ++ volume :: after) volumeMounts h
  = (Heap_call (CallGetConfigMap (ConfigMapVolumeSource_Name source))
       (Heap_appendBinds (hostPathBinds before volumeMounts) h),
     Err (Errorf ("unable to get configmap "
                  +:+ ConfigMapVolumeSource_Name source) err)).
Proof.
  intros Hfree Hmount Hsource Hget.
  pose proof (setVolumeMounts_storeFree before volumeMounts h Hfree) as Hbefore.
  unfold setVolumeMounts in *. rewrite forEach_app.
  unfold mbind at 1, Go_bind at 1. rewrite Hbefore. simpl.
  unfold mbind at 1, Go_bind at 1.
  rewrite setVolumeMounts_inner_firstMount, Hmount.
  unfold handleVolumeSource, callGetConfigMap, call, mbind, Go_bind.
  by rewrite Hsource, Hget.
Qed.

(* =================================================================== *)
(** ** Further properties: the conversion as a whole *)
(* =================================================================== *)

Lemma grows_refl (h : Heap) : grows h h.
Proof. by repeat split. Qed.

Lemma grows_trans (h1 h2 h3 : Heap) : grows h1 h2 → grows h2 h3 → grows h1 h3.
Proof.
  intros (Hi & Hl & Hx & He & Hb & Hc) (Hi' & Hl' & Hx' & He' & Hb' & Hc').
  repeat split; try congruence; by etrans.
Qed.

Lemma steady_ret {A : Type} (a : A) : steady (mret a).
Proof. intros h. apply grows_refl. Qed.

Lemma steady_throw {A : Type} (err : error) : steady (@throw A err).
Proof. intros h. apply grows_refl. Qed.

Lemma steady_panic {A : Type} (msg : string) : steady (@panic A msg).
Proof. intros h. apply grows_refl. Qed.

Lemma steady_deref {A : Type} (p : option A) : steady (deref p).
Proof. destruct p; [apply steady_ret | apply steady_panic]. Qed.

Lemma grows_call (c : StoreCall) (h : Heap) : grows h (Heap_call c h).
Proof. repeat split; try done. by apply prefix_app_r. Qed.

Lemma steady_call {A : Type} (c : StoreCall) (answer : lookup A) :
  steady (call c answer).
Proof. intros h. apply grows_call. Qed.

Lemma steady_modifyConfig (f : Config → Config) :
  (∀ c, Config_Image (f c) = Config_Image c
        ∧ Config_Labels (f c) = Config_Labels c
        ∧ Env c `prefix_of` Env (f c)) →
  steady (modifyConfig f).
Proof.
  intros Hf h. destruct (Hf (containerConfig h)) as (? & ? & ?).
  by repeat split.
Qed.

Lemma steady_modifyHostConfig (f : HostConfig → HostConfig) :
  (∀ hc, ExtraHosts (f hc) = ExtraHosts hc ∧ Binds hc `prefix_of` Binds (f hc)) →
  steady (modifyHostConfig f).
Proof.
  intros Hf h. destruct (Hf (hostConfig h)) as (? & ?). by repeat split.
Qed.

Lemma steady_appendEnv (entry : string) : steady (appendEnv entry).
Proof.
  apply steady_modifyConfig. intros c. repeat split. by apply prefix_app_r.
Qed.

Lemma steady_appendBind (bind : string) : steady (appendBind bind).
Proof.
  apply steady_modifyHostConfig. intros hc. split; [done |].
  by apply prefix_app_r.
Qed.

Lemma steady_bind {A B : Type} (m : Go A) (f : A → Go B) :
  steady m → (∀ a, steady (f a)) → steady (m ≫= f).
Proof.
  intros Hm Hf h. unfold mbind, Go_bind.
  specialize (Hm h). destruct (m h) as [h' [a|err|msg]]; simpl in *; try done.
  eapply grows_trans; [done | apply Hf].
Qed.

Lemma steady_forEach {A : Type} (l : list A) (body : A → Go unit) :
  (∀ x, steady (body x)) → steady (forEach l body).
Proof.
  intros Hbody. induction l as [|x l IH]; simpl.
  - apply steady_ret.
  - apply steady_bind; [apply Hbody | by intros _].
Qed.

Lemma steady_forRange {V : Type} (m : gmap string V)
    (body : string → V → Go unit) :
  (∀ k v, steady (body k v)) → steady (forRange m body).
Proof. intros Hbody. apply steady_forEach. intros [k v]. apply Hbody. Qed.

Ltac steady :=
  repeat first
    [ progress intros
    | apply steady_bind
    | apply steady_forEach
    | apply steady_forRange
    | apply steady_ret
    | apply steady_throw
    | apply steady_panic
    | apply steady_deref
    | apply steady_call
    | apply steady_appendEnv
    | apply steady_appendBind
    | apply steady_modifyConfig; by repeat split
    | apply steady_modifyHostConfig; by repeat split
    | match goal with
      | |- steady (match ?x with _ => _ end) => destruct x
      | |- steady (if ?b then _ else _) => destruct b
      end ].

Lemma steady_setHostPorts (ports : list ContainerPort) :
  steady (setHostPorts ports).
Proof. unfold setHostPorts. steady. Qed.

Lemma steady_handleValueFromEnvVars (env : EnvVar) :
  steady (handleValueFromEnvVars env).
Proof. unfold handleValueFromEnvVars, callGetSecret, callGetConfigMap. steady. Qed.

Lemma steady_handleValueFromEnvFromSource (env : EnvFromSource) :
  steady (handleValueFromEnvFromSource env).
Proof.
  unfold handleValueFromEnvFromSource, callGetSecret, callGetConfigMap. steady.
Qed.

Lemma steady_setEnvVars (envs : list EnvVar) (envFrom : list EnvFromSource) :
  steady (setEnvVars envs envFrom).
Proof.
  unfold setEnvVars.
  apply steady_bind; [| intros _]; apply steady_forEach.
  - intros env. destruct (ValueFrom env).
    + apply steady_handleValueFromEnvVars.
    + apply steady_appendEnv.
  - apply steady_handleValueFromEnvFromSource.
Qed.

Lemma steady_setCommandAndArgs (command args : list string) :
  steady (setCommandAndArgs command args).
Proof. unfold setCommandAndArgs. steady. Qed.

Lemma steady_setRestartPolicy (restartPolicy : string) :
  steady (setRestartPolicy restartPolicy).
Proof. unfold setRestartPolicy. steady. Qed.

Lemma steady_setSecurityContext
    (podSecurityContext : option PodSecurityContext)
    (containerSecurityContext : option SecurityContext) :
  steady (setSecurityContext podSecurityContext containerSecurityContext).
Proof. unfold setSecurityContext. steady. Qed.

Lemma steady_setResourceRequirements (resources : ResourceRequirements) :
  steady (setResourceRequirements resources).
Proof. unfold setResourceRequirements. steady. Qed.

Lemma steady_handleVolumeSource (volume : Volume) (volumeMount : VolumeMount) :
  steady (handleVolumeSource volume volumeMount).
Proof.
  unfold handleVolumeSource, callGetSecret, callGetSecretBinds,
         callGetConfigMap, callGetConfigMapBinds.
  steady.
Qed.

Lemma steady_setVolumeMounts
    (volumes : list Volume) (volumeMounts : list VolumeMount) :
  steady (setVolumeMounts volumes volumeMounts).
Proof.
  unfold setVolumeMounts. apply steady_forEach. intros volume.
  induction volumeMounts as [|volumeMount volumeMounts IH]; simpl.
  - apply steady_ret.
  - destruct (bool_decide _); [apply steady_handleVolumeSource | done].
Qed.

Lemma firstCalls_call_bind {A B : Type} (c : StoreCall) (answer : lookup A)
    (f : lookup A → Go B) :
  (∀ r, steady (f r)) → firstCalls c (call c answer ≫= f).
Proof. intros Hf h. unfold mbind, Go_bind, call. apply Hf. Qed.

Lemma firstCalls_bind {A B : Type} (c : StoreCall) (m : Go A) (f : A → Go B) :
  firstCalls c m → (∀ a, steady (f a)) → firstCalls c (m ≫= f).
Proof.
  intros Hm Hf h. unfold mbind, Go_bind.
  specialize (Hm h). destruct (m h) as [h' [a|err|msg]]; simpl in *; try done.
  eapply grows_trans; [done | apply Hf].
Qed.

Lemma firstCalls_setServiceAccountTokenAndCACert :
  firstCalls (CallGetSecret K2dServiceAccountSecretName)
             setServiceAccountTokenAndCACert.
Proof.
  unfold setServiceAccountTokenAndCACert, callGetSecret, callGetSecretBinds.
  apply firstCalls_call_bind. steady.
Qed.

(** After the lookup of the service-account secret, the steps only grow the
    heap. *)
Lemma firstCalls_convertSteps (spec : PodSpec) (containerSpec : Container) :
  firstCalls (CallGetSecret K2dServiceAccountSecretName)
             (convertSteps spec containerSpec).
Proof.
  unfold convertSteps.
  apply firstCalls_bind;
    [apply firstCalls_setServiceAccountTokenAndCACert | intros _].
  apply steady_bind; [apply steady_setHostPorts | intros _].
  apply steady_bind; [apply steady_setEnvVars | intros _].
  apply steady_bind; [apply steady_setCommandAndArgs | intros _].
  apply steady_bind; [apply steady_setRestartPolicy | intros _].
  apply steady_bind; [apply steady_setSecurityContext | intros _].
  apply steady_bind; [apply steady_setResourceRequirements | intros _].
  apply steady_setVolumeMounts.
Qed.

(** X4. Whatever the spec and the stores, a conversion that reaches its steps
    begins with the lookup of the service-account secret: the trace of
    store calls is never empty and starts with it, whether the conversion
    then returns a bundle, returns an error or panics. *)
Theorem conversion_first_looks_up_service_account
    (spec : PodSpec) (labels : gmap string string)
    (containerSpec : Container) (others : list Container) :
  Containers spec = containerSpec :: others →
  ∃ later,
    (ConvertPodSpecToContainerConfiguration spec labels).1
    = CallGetSecret K2dServiceAccountSecretName :: later.
Proof.
  intros Hcs. unfold ConvertPodSpecToContainerConfiguration. rewrite Hcs.
  pose proof (firstCalls_convertSteps spec containerSpec
                (seedHeap containerSpec labels)) as (_ & _ & _ & _ & _ & Hcalls).
  destruct (convertSteps _ _ _) as [h [[]|err|msg]]; simpl in *;
    destruct Hcalls as [later ->]; by exists later.
Qed.

(** X3. Every bundle the conversion returns carries the image of the first
    container, the labels it was given, the two control-plane variables as
    the first two entries of its environment, the one host alias of the
    control plane and the one network: no step replaces or removes them. *)
Theorem conversion_keeps_the_seed
    (spec : PodSpec) (labels : gmap string string)
    (trace : list StoreCall) (bundle : ContainerConfiguration) :
  ConvertPodSpecToContainerConfiguration spec labels
  = (trace, Returns (bundle, None)) →
  ∃ containerSpec others config hostConfig' more,
    Containers spec = containerSpec :: others
    ∧ bundle
      = {| ContainerConfig := Some config;
           ContainerConfiguration_HostConfig := Some hostConfig';
           NetworkConfig :=
             Some {| EndpointsConfig := {[ K2DNetworkName := tt ]} |} |}
    ∧ Config_Image config = Container_Image containerSpec
    ∧ Config_Labels config = labels
    ∧ Env config
      = ("KUBERNETES_SERVICE_HOST="
           +:+ ServerIpAddr (k2dServerConfiguration converter))
        :: ("KUBERNETES_SERVICE_PORT="
              +:+ Itoa (ServerPort (k2dServerConfiguration converter)))
        :: more
    ∧ ExtraHosts hostConfig'
      = ["kubernetes.default.svc:"
           +:+ ServerIpAddr (k2dServerConfiguration converter)].
Proof.
  unfold ConvertPodSpecToContainerConfiguration.
  destruct (Containers spec) as [|containerSpec others] eqn:Hcs; [done |].
  pose proof (firstCalls_convertSteps spec containerSpec
                (seedHeap containerSpec labels))
    as (Himage & Hlabels & Hhosts & [more Henv] & _ & _).
  destruct (convertSteps _ _ _) as [h [[]|err|msg]]; intros [= <- <-].
  simpl in *.
  exists containerSpec, others, (containerConfig h), (hostConfig h), more.
  by repeat split.
Qed.

Lemma setServiceAccountTokenAndCACert_found
    (secret : Secret) (binds : gmap string string) (h : Heap) :
  GetSecret (secretStore converter) K2dServiceAccountSecretName = Found secret →
  GetSecretBinds (secretStore converter) secret = Found binds →
  setServiceAccountTokenAndCACert h
  = (Heap_appendBinds (bindsUnder serviceAccountRoot binds)
       (Heap_call (CallGetSecretBinds (Secret_Name secret))
          (Heap_call (CallGetSecret K2dServiceAccountSecretName) h)),
     Ok tt).
Proof.
  intros Hget Hbinds. unfold setServiceAccountTokenAndCACert.
  unfold callGetSecret, callGetSecretBinds, call, mbind, Go_bind.
  rewrite Hget, Hbinds. apply forRange_appendBind.
Qed.

(** X1. The conversion of a pod that needs no store beyond the service account
    (well-formed ports, literal environment entries, volumes backed by no
    store) succeeds, makes the two service-account calls and no other, and
    returns the bundle written out here: the seeded environment followed by
    the literal entries in their order, the service-account binds followed
    by the host-path binds, the command as entrypoint and the arguments as
    command, and the mapped ports, restart policy, security context and
    resources. *)
Theorem conversion_of_a_plain_pod
    (spec : PodSpec) (labels : gmap string string)
    (containerSpec : Container) (others : list Container)
    (secret : Secret) (binds : gmap string string) :
  Containers spec = containerSpec :: others →
  GetSecret (secretStore converter) K2dServiceAccountSecretName = Found secret →
  GetSecretBinds (secretStore converter) secret = Found binds →
  wellFormedPorts (Ports containerSpec) →
  Forall (λ env, ValueFrom env = None) (Container_Env containerSpec) →
  EnvFrom containerSpec = [] →
  Forall storeFree (Volumes spec) →
  ∃ portMaps exposed,
    setHostPorts_loop (Ports containerSpec) ∅ ∅ = Found (portMaps, exposed)
    ∧ ConvertPodSpecToContainerConfiguration spec labels
      = ([CallGetSecret K2dServiceAccountSecretName;
          CallGetSecretBinds (Secret_Name secret)],
         Returns
           ({| ContainerConfig :=
                 Some {| Config_Image := Container_Image containerSpec;
                         Config_Labels := labels;
                         Env :=
                           ("KUBERNETES_SERVICE_HOST="
                              +:+ ServerIpAddr (k2dServerConfiguration converter))
                           :: ("KUBERNETES_SERVICE_PORT="
                                 +:+ Itoa (ServerPort
                                             (k2dServerConfiguration converter)))
                           :: (literalEntry <$> Container_Env containerSpec);
                         ExposedPorts := exposed;
                         User := userAfter (PodSpec_SecurityContext spec)
                                           EmptyString;
                         Entrypoint := Command containerSpec;
                         Cmd := Args containerSpec |};
               ContainerConfiguration_HostConfig :=
                 Some {| Binds :=
                           bindsUnder serviceAccountRoot binds
                           ++ hostPathBinds (Volumes spec)
                                (VolumeMounts containerSpec);
                         PortBindings := portMaps;
                         HostConfig_RestartPolicy :=
                           {| RestartPolicy_Name :=
                                restartPolicyName (PodSpec_RestartPolicy spec) |};
                         Privileged :=
                           privilegedAfter (PodSpec_SecurityContext spec)
                             (Container_SecurityContext containerSpec) false;
                         ExtraHosts :=
                           ["kubernetes.default.svc:"
                              +:+ ServerIpAddr
                                    (k2dServerConfiguration converter)];
                         HostConfig_Resources :=
                           resourceRequirementsOf
                             (Container_Resources containerSpec) |};
               NetworkConfig :=
                 Some {| EndpointsConfig := {[ K2DNetworkName := tt ]} |} |},
            None)).
Proof.
  intros Hcs Hget Hbinds Hports Hliteral HenvFrom Hvolumes.
  destruct (setHostPorts_loop_spec (Ports containerSpec) ∅ ∅ Hports)
    as (portMaps & exposed & Hloop & _ & _).
  exists portMaps, exposed. split; [exact Hloop |].
  unfold ConvertPodSpecToContainerConfiguration. rewrite Hcs.
  unfold convertSteps.
  unfold mbind at 1, Go_bind at 1.
  rewrite (setServiceAccountTokenAndCACert_found secret binds) by done.
  unfold mbind at 1, Go_bind at 1.
  unfold setHostPorts. rewrite Hloop.
  unfold mbind at 1, Go_bind at 1. unfold modifyConfig at 1.
  unfold modifyHostConfig at 1.
  unfold mbind at 1, Go_bind at 1.
  unfold setEnvVars. unfold mbind at 1, Go_bind at 1.
  rewrite forEach_literal by done. rewrite HenvFrom. cbn [forEach].
  unfold mret at 1, Go_ret at 1.
  unfold mbind at 1, Go_bind at 1. rewrite setCommandAndArgs_eq.
  unfold mbind at 1, Go_bind at 1. rewrite setRestartPolicy_eq.
  unfold mbind at 1, Go_bind at 1. rewrite setSecurityContext_eq.
  unfold mbind at 1, Go_bind at 1.
  unfold setResourceRequirements, modifyHostConfig at 1.
  rewrite setVolumeMounts_storeFree by done.
  simpl. by destruct (Command containerSpec), (Args containerSpec).
Qed.

(* =================================================================== *)
(** ** Further properties: the reverse converter, resources, the store *)
(* =================================================================== *)

(** X20. The metadata of the pod of a container: kind and version of a pod, the
    default namespace, a single container of the container's name and
    image, the container's id in the status, and one annotation, the
    last-applied configuration, which is always there: it carries the value
    of the container's label, and the empty string when the container has
    no such label. The names after the first play no part. *)
Theorem ConvertContainerToPod_metadata
    (container : types_Container) (name0 : string) (names : list string) :
  Names container = name0 :: names →
  ∃ (pod : Pod) (status : ContainerStatus),
    ConvertContainerToPod container = Returns pod
    ∧ Pod_TypeMeta pod = {| Kind := "Pod"; APIVersion := "v1" |}
    ∧ Namespace (Pod_ObjectMeta pod) = "default"
    ∧ dom (Annotations (Pod_ObjectMeta pod))
      = {[ "kubectl.kubernetes.io/last-applied-configuration" ]}
    ∧ Annotations (Pod_ObjectMeta pod)
        !! "kubectl.kubernetes.io/last-applied-configuration"
      = Some (default EmptyString
                (Labels container !! WorkloadLastAppliedConfigLabelKey))
    ∧ Container_Name <$> Containers (Pod_Spec pod) = [TrimPrefix name0 "/"]
    ∧ Container_Image <$> Containers (Pod_Spec pod) = [Image container]
    ∧ ContainerStatuses (Pod_Status pod) = [status]
    ∧ ContainerID status = ID container
    ∧ ConvertContainerToPod container
      = ConvertContainerToPod
          {| ID := ID container; Names := [name0]; Image := Image container;
             Created := Created container;
             types_Container_State := types_Container_State container;
             Labels := Labels container |}.
Proof.
  intros Hnames. unfold ConvertContainerToPod. rewrite Hnames. simpl.
  destruct (String.eqb (types_Container_State container) "running");
    eexists _, _; (split; [reflexivity |]); simpl;
    repeat split; try done; by rewrite dom_singleton_L.
Qed.

Lemma Resources_eq (r r' : Resources) :
  CPUShares r = CPUShares r' → MemoryReservation r = MemoryReservation r' →
  NanoCPUs r = NanoCPUs r' → Memory r = Memory r' → r = r'.
Proof. destruct r, r'. simpl. by intros -> -> -> ->. Qed.

(** The four fields that [setResourceRequirements] computes. *)
Lemma resourceRequirementsOf_fields (resources : ResourceRequirements) :
  resourceRequirementsOf resources
  = {| CPUShares := entryOrZero MilliValue (Requests resources) ResourceCPU;
       MemoryReservation :=
         entryOrZero Value (Requests resources) ResourceMemory;
       NanoCPUs := entryOrZero nanoCPUsOf (Limits resources) ResourceCPU;
       Memory := entryOrZero Value (Limits resources) ResourceMemory |}.
Proof.
  unfold resourceRequirementsOf, entryOrZero.
  destruct (Requests resources) as [requests|],
           (Limits resources) as [limits|]; simpl.
  - destruct (limits_loop limits
                (foldl requestsStep Resources_zero (map_to_list requests)))
      as (Hn & Hm & Hs & Hr).
    destruct (requests_loop requests Resources_zero) as (Hs' & Hr' & Hn' & Hm').
    apply Resources_eq; simpl;
      rewrite ?Hn, ?Hm, ?Hs, ?Hr, ?Hs', ?Hr', ?Hn', ?Hm';
      by destruct (_ !! _).
  - destruct (requests_loop requests Resources_zero) as (Hs & Hr & Hn & Hm).
    apply Resources_eq; simpl; rewrite ?Hn, ?Hm, ?Hs, ?Hr;
      try done; by destruct (_ !! _).
  - destruct (limits_loop limits Resources_zero) as (Hn & Hm & Hs & Hr).
    apply Resources_eq; simpl; rewrite ?Hn, ?Hm, ?Hs, ?Hr;
      try done; by destruct (_ !! _).
  - done.
Qed.

(** X19. Resources under other names than ["cpu"] and ["memory"] are ignored,
    requests never reach the limit fields nor limits the request fields, a
    nil list and an empty list are the same, and the resources the host
    configuration had before are replaced as a whole. *)
Theorem setResourceRequirements_ignores_other_names
    (requests limits : ResourceList) (name : string) (quantity : Quantity)
    (h : Heap) :
  name ≠ ResourceCPU → name ≠ ResourceMemory →
  resourceRequirementsOf
    {| Limits := Some (<[name := quantity]> limits);
       Requests := Some (<[name := quantity]> requests) |}
  = resourceRequirementsOf {| Limits := Some limits; Requests := Some requests |}
  ∧ resourceRequirementsOf {| Limits := Some limits; Requests := None |}
    = {| CPUShares := 0; MemoryReservation := 0;
         NanoCPUs := entryOrZero nanoCPUsOf (Some limits) ResourceCPU;
         Memory := entryOrZero Value (Some limits) ResourceMemory |}
  ∧ resourceRequirementsOf {| Limits := None; Requests := Some requests |}
    = {| CPUShares := entryOrZero MilliValue (Some requests) ResourceCPU;
         MemoryReservation := entryOrZero Value (Some requests) ResourceMemory;
         NanoCPUs := 0; Memory := 0 |}
  ∧ resourceRequirementsOf {| Limits := Some ∅; Requests := Some ∅ |}
    = resourceRequirementsOf {| Limits := None; Requests := None |}
  ∧ HostConfig_Resources
      (hostConfig
         (setResourceRequirements
            {| Limits := Some limits; Requests := Some requests |} h).1)
    = resourceRequirementsOf {| Limits := Some limits; Requests := Some requests |}.
Proof.
  intros Hcpu Hmemory.
  split; [| split; [| split; [| split]]];
    rewrite ?resourceRequirementsOf_fields; unfold entryOrZero; simpl;
    rewrite ?lookup_insert_ne by done; rewrite ?lookup_empty; try done.
  by rewrite resourceRequirementsOf_fields.
Qed.

(** X21. [NewFileSystemStore] creates the directory of the config maps, then the
    one of the secrets, both under the data path. It returns a store, with
    these two paths, exactly when both are created, and otherwise no store
    and an error that names the folder; when the first directory cannot be
    created the second is not attempted. *)
Theorem NewFileSystemStore_creates_both
    (opts : FileSystemStoreOptions) (fs : FileSystem) :
  let configMaps := path_Join (DataPath opts) ConfigMapFolder in
  let secrets := path_Join (DataPath opts) SecretFolder in
  (∀ fs1 err,
     CreateDir configMaps fs = (fs1, Some err) →
     NewFileSystemStore opts fs
     = (fs1, (None, Some (Errorf "unable to create directory configmaps" err))))
  ∧ (∀ fs1 fs2 err,
       CreateDir configMaps fs = (fs1, None) →
       CreateDir secrets fs1 = (fs2, Some err) →
       NewFileSystemStore opts fs
       = (fs2, (None, Some (Errorf "unable to create directory secrets" err))))
  ∧ (∀ fs1 fs2,
       CreateDir configMaps fs = (fs1, None) →
       CreateDir secrets fs1 = (fs2, None) →
       NewFileSystemStore opts fs
       = (fs2, (Some {| configMapPath := configMaps; secretPath := secrets;
                        mutex := tt |}, None)))
  ∧ (∀ fs' store err,
       NewFileSystemStore opts fs = (fs', (store, err)) →
       (is_Some store ∧ err = None) ∨ (store = None ∧ is_Some err)).
Proof.
  intros configMaps secrets. unfold NewFileSystemStore. simpl.
  fold configMaps. fold secrets.
  split; [| split; [| split]].
  - intros fs1 err ->. done.
  - intros fs1 fs2 err -> ->. done.
  - intros fs1 fs2 -> ->. done.
  - intros fs' store err.
    destruct (CreateDir configMaps fs) as [fs1 [err1|]].
    { intros [= <- <- <-]. right. eauto. }
    destruct (CreateDir secrets fs1) as [fs2 [err2|]].
    { intros [= <- <- <-]. right. eauto. }
    intros [= <- <- <-]. left. eauto.
Qed.

(** The steps that use the stores are built from store calls and from
    appends to the environment and to the binds: they stay within every
    preorder that these three stay within. *)
Section Respects.

Variable R : Heap → Heap → Prop.
Hypothesis R_refl : ∀ h, R h h.
Hypothesis R_trans : ∀ h1 h2 h3, R h1 h2 → R h2 h3 → R h1 h3.
Hypothesis R_call : ∀ c h, R h (Heap_call c h).
Hypothesis R_appendEnv : ∀ entry h, R h (Heap_appendEnv [entry] h).
Hypothesis R_appendBind : ∀ bind h, R h (Heap_appendBinds [bind] h).

Lemma respects_ret {A : Type} (a : A) : respects R (mret a).
Proof. intros h. apply R_refl. Qed.

Lemma respects_throw {A : Type} (err : error) : respects R (@throw A err).
Proof. intros h. apply R_refl. Qed.

Lemma respects_panic {A : Type} (msg : string) : respects R (@panic A msg).
Proof. intros h. apply R_refl. Qed.

Lemma respects_deref {A : Type} (p : option A) : respects R (deref p).
Proof. destruct p; [apply respects_ret | apply respects_panic]. Qed.

Lemma respects_call {A : Type} (c : StoreCall) (answer : lookup A) :
  respects R (call c answer).
Proof. intros h. apply R_call. Qed.

Lemma respects_appendEnv (entry : string) : respects R (appendEnv entry).
Proof. intros h. apply R_appendEnv. Qed.

Lemma respects_appendBind (bind : string) : respects R (appendBind bind).
Proof. intros h. apply R_appendBind. Qed.

Lemma respects_bind {A B : Type} (m : Go A) (f : A → Go B) :
  respects R m → (∀ a, respects R (f a)) → respects R (m ≫= f).
Proof.
  intros Hm Hf h. unfold mbind, Go_bind.
  specialize (Hm h). destruct (m h) as [h' [a|err|msg]]; simpl in *; try done.
  eapply R_trans; [done | apply Hf].
Qed.

Lemma respects_forEach {A : Type} (l : list A) (body : A → Go unit) :
  (∀ x, respects R (body x)) → respects R (forEach l body).
Proof.
  intros Hbody. induction l as [|x l IH]; simpl.
  - apply respects_ret.
  - apply respects_bind; [apply Hbody | by intros _].
Qed.

Lemma respects_forRange {V : Type} (m : gmap string V)
    (body : string → V → Go unit) :
  (∀ k v, respects R (body k v)) → respects R (forRange m body).
Proof. intros Hbody. apply respects_forEach. intros [k v]. apply Hbody. Qed.

Ltac respects :=
  repeat first
    [ progress intros
    | apply respects_bind
    | apply respects_forEach
    | apply respects_forRange
    | apply respects_ret
    | apply respects_throw
    | apply respects_panic
    | apply respects_deref
    | apply respects_call
    | apply respects_appendEnv
    | apply respects_appendBind
    | match goal with
      | |- respects _ (match ?x with _ => _ end) => destruct x
      | |- respects _ (if ?b then _ else _) => destruct b
      end ].

Lemma respects_setServiceAccountTokenAndCACert :
  respects R setServiceAccountTokenAndCACert.
Proof.
  unfold setServiceAccountTokenAndCACert, callGetSecret, callGetSecretBinds.
  respects.
Qed.

Lemma respects_setEnvVars (envs : list EnvVar) (envFrom : list EnvFromSource) :
  respects R (setEnvVars envs envFrom).
Proof.
  unfold setEnvVars.
  apply respects_bind; [| intros _]; apply respects_forEach.
  - intros env. destruct (ValueFrom env).
    + unfold handleValueFromEnvVars, callGetSecret, callGetConfigMap. respects.
    + apply respects_appendEnv.
  - intros env.
    unfold handleValueFromEnvFromSource, callGetSecret, callGetConfigMap.
    respects.
Qed.

Lemma respects_setVolumeMounts
    (volumes : list Volume) (volumeMounts : list VolumeMount) :
  respects R (setVolumeMounts volumes volumeMounts).
Proof.
  unfold setVolumeMounts. apply respects_forEach. intros volume.
  induction volumeMounts as [|volumeMount volumeMounts IH]; simpl.
  - apply respects_ret.
  - destruct (bool_decide _); [| done].
    unfold handleVolumeSource, callGetSecret, callGetSecretBinds,
           callGetConfigMap, callGetConfigMapBinds.
    respects.
Qed.

End Respects.

Lemma sameButEnvBindsCalls_refl (h : Heap) : sameButEnvBindsCalls h h.
Proof. by split. Qed.

Lemma sameButEnvBindsCalls_trans (h1 h2 h3 : Heap) :
  sameButEnvBindsCalls h1 h2 → sameButEnvBindsCalls h2 h3 →
  sameButEnvBindsCalls h1 h3.
Proof. intros [Hc Hh] [Hc' Hh']. split; congruence. Qed.

(** What two heaps with the same configuration apart from the environment
    and the binds agree on. *)
Lemma sameButEnvBindsCalls_fields (h h' : Heap) :
  sameButEnvBindsCalls h h' →
  ExposedPorts (containerConfig h') = ExposedPorts (containerConfig h)
  ∧ User (containerConfig h') = User (containerConfig h)
  ∧ Entrypoint (containerConfig h') = Entrypoint (containerConfig h)
  ∧ Cmd (containerConfig h') = Cmd (containerConfig h)
  ∧ PortBindings (hostConfig h') = PortBindings (hostConfig h)
  ∧ HostConfig_RestartPolicy (hostConfig h')
    = HostConfig_RestartPolicy (hostConfig h)
  ∧ Privileged (hostConfig h') = Privileged (hostConfig h)
  ∧ HostConfig_Resources (hostConfig h') = HostConfig_Resources (hostConfig h).
Proof.
  destruct h as [[] [] trace], h' as [[] [] trace'].
  unfold sameButEnvBindsCalls, set_Env, set_Binds. simpl.
  intros [Hc Hh]. injection Hc as -> -> -> -> -> ->.
  injection Hh as -> -> -> -> ->. by repeat split.
Qed.

Lemma sameButEnvBindsCalls_setServiceAccountTokenAndCACert :
  respects sameButEnvBindsCalls setServiceAccountTokenAndCACert.
Proof.
  apply respects_setServiceAccountTokenAndCACert;
    first [ exact sameButEnvBindsCalls_refl
          | exact sameButEnvBindsCalls_trans
          | by intros; split ].
Qed.

Lemma sameButEnvBindsCalls_setEnvVars
    (envs : list EnvVar) (envFrom : list EnvFromSource) :
  respects sameButEnvBindsCalls (setEnvVars envs envFrom).
Proof.
  apply respects_setEnvVars;
    first [ exact sameButEnvBindsCalls_refl
          | exact sameButEnvBindsCalls_trans
          | by intros; split ].
Qed.

Lemma sameButEnvBindsCalls_setVolumeMounts
    (volumes : list Volume) (volumeMounts : list VolumeMount) :
  respects sameButEnvBindsCalls (setVolumeMounts volumes volumeMounts).
Proof.
  apply respects_setVolumeMounts;
    first [ exact sameButEnvBindsCalls_refl
          | exact sameButEnvBindsCalls_trans
          | by intros; split ].
Qed.

(** A sequence that ends well went through each of its parts. *)
Lemma bind_Ok {A B : Type} (m : Go A) (f : A → Go B) (h h' : Heap) (b : B) :
  (m ≫= f) h = (h', Ok b) →
  ∃ h1 a, m h = (h1, Ok a) ∧ f a h1 = (h', Ok b).
Proof.
  unfold mbind, Go_bind. destruct (m h) as [h1 [a|err|msg]]; [eauto | done..].
Qed.

(** The steps of a conversion that ends well, one by one. *)
Lemma convertSteps_Ok (spec : PodSpec) (containerSpec : Container) (h0 h : Heap) :
  convertSteps spec containerSpec h0 = (h, Ok tt) →
  ∃ h1 h2 h3 portMaps exposed,
    sameButEnvBindsCalls h0 h1
    ∧ setHostPorts_loop (Ports containerSpec) ∅ ∅ = Found (portMaps, exposed)
    ∧ h2 = Heap_modifyHostConfig (set_PortBindings portMaps)
             (Heap_modifyConfig (set_ExposedPorts exposed) h1)
    ∧ sameButEnvBindsCalls h2 h3
    ∧ sameButEnvBindsCalls
        (Heap_modifyHostConfig
           (set_Resources
              (resourceRequirementsOf (Container_Resources containerSpec)))
           (Heap_modifyHostConfig
              (set_Privileged
                 (privilegedAfter (PodSpec_SecurityContext spec)
                    (Container_SecurityContext containerSpec)
                    (Privileged (hostConfig h3))))
              (Heap_modifyConfig
                 (set_User (userAfter (PodSpec_SecurityContext spec)
                              (User (containerConfig h3))))
                 (Heap_modifyHostConfig
                    (set_RestartPolicy
                       {| RestartPolicy_Name :=
                            restartPolicyName (PodSpec_RestartPolicy spec) |})
                    (Heap_modifyConfig
                       (λ c, set_Cmd
                               (if Args containerSpec is []
                                then Cmd c else Args containerSpec)
                               (set_Entrypoint
                                  (if Command containerSpec is []
                                   then Entrypoint c
                                   else Command containerSpec) c))
                       h3)))))
        h.
Proof.
  unfold convertSteps. intros Hsteps.
  apply bind_Ok in Hsteps as (h1 & [] & Hsa & Hsteps).
  apply bind_Ok in Hsteps as (h2 & [] & Hports & Hsteps).
  apply bind_Ok in Hsteps as (h3 & [] & Henv & Hsteps).
  apply bind_Ok in Hsteps as (h4 & [] & Hcommand & Hsteps).
  apply bind_Ok in Hsteps as (h5 & [] & Hrestart & Hsteps).
  apply bind_Ok in Hsteps as (h6 & [] & Hsecurity & Hsteps).
  apply bind_Ok in Hsteps as (h7 & [] & Hresources & Hvolumes).
  pose proof (sameButEnvBindsCalls_setServiceAccountTokenAndCACert h0) as H01.
  rewrite Hsa in H01.
  pose proof (sameButEnvBindsCalls_setEnvVars
                (Container_Env containerSpec) (EnvFrom containerSpec) h2) as H23.
  rewrite Henv in H23.
  pose proof (sameButEnvBindsCalls_setVolumeMounts
                (Volumes spec) (VolumeMounts containerSpec) h7) as H7.
  rewrite Hvolumes in H7.
  unfold setHostPorts in Hports.
  destruct (setHostPorts_loop (Ports containerSpec) ∅ ∅)
    as [[portMaps exposed]|err] eqn:Hloop; [| done].
  injection Hports as <-.
  rewrite setCommandAndArgs_eq in Hcommand. injection Hcommand as <-.
  rewrite setRestartPolicy_eq in Hrestart. injection Hrestart as <-.
  rewrite setSecurityContext_eq in Hsecurity. injection Hsecurity as <-.
  injection Hresources as <-.
  eexists h1, _, h3, portMaps, exposed.
  split; [exact H01 |]. split; [reflexivity |]. split; [reflexivity |].
  split; [exact H23 | exact H7].
Qed.

(** X2. What the store-free mappers compute is what a returned bundle carries,
    for every spec and every store: the lookups of the environment and of
    the volumes that run in between and after change nothing of it. A
    bundle is returned only if the ports are well formed; its exposed ports
    and port bindings are those of the port loop, its entrypoint is the
    command and its command the arguments, and its user, restart policy,
    privileged flag and resources are the mapped ones. *)
Theorem conversion_applies_the_field_mappers
    (spec : PodSpec) (labels : gmap string string)
    (trace : list StoreCall) (bundle : ContainerConfiguration) :
  ConvertPodSpecToContainerConfiguration spec labels
  = (trace, Returns (bundle, None)) →
  ∃ containerSpec others config hostConfig' portMaps exposed,
    Containers spec = containerSpec :: others
    ∧ ContainerConfig bundle = Some config
    ∧ ContainerConfiguration_HostConfig bundle = Some hostConfig'
    ∧ wellFormedPorts (Ports containerSpec)
    ∧ setHostPorts_loop (Ports containerSpec) ∅ ∅ = Found (portMaps, exposed)
    ∧ ExposedPorts config = exposed
    ∧ PortBindings hostConfig' = portMaps
    ∧ Entrypoint config = Command containerSpec
    ∧ Cmd config = Args containerSpec
    ∧ User config = userAfter (PodSpec_SecurityContext spec) EmptyString
    ∧ HostConfig_RestartPolicy hostConfig'
      = {| RestartPolicy_Name :=
             restartPolicyName (PodSpec_RestartPolicy spec) |}
    ∧ Privileged hostConfig'
      = privilegedAfter (PodSpec_SecurityContext spec)
          (Container_SecurityContext containerSpec) false
    ∧ HostConfig_Resources hostConfig'
      = resourceRequirementsOf (Container_Resources containerSpec).
Proof.
  unfold ConvertPodSpecToContainerConfiguration.
  destruct (Containers spec) as [|containerSpec others] eqn:Hcs; [done |].
  destruct (convertSteps _ _ _) as [h [[]|err|msg]] eqn:Hsteps;
    intros [= <- <-].
  apply convertSteps_Ok
    in Hsteps as (h1 & h2 & h3 & portMaps & exposed
                  & H01 & Hloop & -> & H23 & H7).
  apply sameButEnvBindsCalls_fields
    in H01 as (Hx1 & Hu1 & He1 & Hc1 & Hb1 & Hr1 & Hp1 & Hs1).
  apply sameButEnvBindsCalls_fields
    in H23 as (Hx3 & Hu3 & He3 & Hc3 & Hb3 & Hr3 & Hp3 & Hs3).
  apply sameButEnvBindsCalls_fields
    in H7 as (Hx & Hu & He & Hc & Hb & Hr & Hp & Hs).
  simpl in *.
  exists containerSpec, others, (containerConfig h), (hostConfig h),
         portMaps, exposed.
  split; [done |]. split; [done |]. split; [done |].
  split.
  { apply dec_stable. intros Hnot.
    destruct (setHostPorts_loop_Failed (Ports containerSpec) ∅ ∅) as [_ Hfailed].
    destruct (Hfailed Hnot) as [err Herr]. congruence. }
  split; [done |].
  rewrite Hx, Hb, He, Hc, Hu, Hr, Hp, Hs, Hx3, Hb3, He3, Hc3, Hu3, Hp3,
          He1, Hc1, Hu1, Hp1.
  repeat split; try done.
  - by destruct (Command containerSpec).
  - by destruct (Args containerSpec).
Qed.

(** X5. A port that cannot be parsed ends the conversion right after the
    service-account step: the error of the parser is returned as it is with
    the zero bundle, and neither the environment nor the volumes are looked
    up in a store. *)
Theorem conversion_fails_on_unparseable_port
    (spec : PodSpec) (labels : gmap string string)
    (containerSpec : Container) (others : list Container)
    (secret : Secret) (binds : gmap string string) :
  Containers spec = containerSpec :: others →
  GetSecret (secretStore converter) K2dServiceAccountSecretName = Found secret →
  GetSecretBinds (secretStore converter) secret = Found binds →
  ¬ wellFormedPorts (Ports containerSpec) →
  ∃ err,
    setHostPorts_loop (Ports containerSpec) ∅ ∅ = Failed err
    ∧ ConvertPodSpecToContainerConfiguration spec labels
      = ([CallGetSecret K2dServiceAccountSecretName;
          CallGetSecretBinds (Secret_Name secret)],
         Returns (ContainerConfiguration_zero, Some err)).
Proof.
  intros Hcs Hget Hbinds Hports.
  destruct (setHostPorts_loop_Failed (Ports containerSpec) ∅ ∅) as [_ Hfailed].
  destruct (Hfailed Hports) as [err Herr].
  exists err. split; [done |].
  unfold ConvertPodSpecToContainerConfiguration. rewrite Hcs.
  unfold convertSteps.
  unfold mbind at 1, Go_bind at 1.
  rewrite (setServiceAccountTokenAndCACert_found secret binds) by done.
  unfold mbind at 1, Go_bind at 1.
  unfold setHostPorts. by rewrite Herr.
Qed.

End Converter.

(* ===================================================================== *)
(** ** The properties on the sample inputs *)
(* ===================================================================== *)

(** The reverse scenario: container [/web], image [nginx], created at
    1700000000, running. *)
Lemma C6_witness :
  ∃ (pod : Pod) (status : ContainerStatus),
    ConvertContainerToPod Sample.lastAppliedKey (Sample.web "running")
    = Returns pod
    ∧ ObjectMeta_Name (Pod_ObjectMeta pod) = "web"
    ∧ Phase (Pod_Status pod) = PodRunning
    ∧ ContainerStatuses (Pod_Status pod) = [status]
    ∧ Ready status = true
    ∧ Started status = Some true
    ∧ Running (State status) = Some {| StartedAt := {| Unix := 1700000000 |} |}
    ∧ RestartCount status = 0.
Proof.
  destruct (C6_reverse_phase_mapping Sample.lastAppliedKey
              (Sample.web "running") "/web" [] eq_refl)
    as (pod & status & Hret & Hname & _ & _ & Hstatuses & _ & Hrestart
        & Hrunning & _).
  destruct (Hrunning eq_refl) as (Hphase & Hready & Hstarted & Hsince).
  exists pod, status. repeat split; assumption.
Defined.

(** A stopped container with a name is converted as well. *)
Lemma C9_witness :
  ∃ pod : Pod,
    ConvertContainerToPod Sample.lastAppliedKey (Sample.web "exited")
    = Returns pod.
Proof.
  apply (C9_reverse_total_on_named Sample.lastAppliedKey (Sample.web "exited")).
  discriminate.
Defined.

(** A descriptor without a name: the reverse converter returns no pod. *)
Lemma C9_counterexample :
  ¬ ∃ pod : Pod,
      ConvertContainerToPod Sample.lastAppliedKey Sample.nameless = Returns pod.
Proof. intros [pod Hpod]. discriminate Hpod. Qed.

(** Without the service-account secret the conversion of a pod whose port,
    environment entry and volume would each fail stops at the lookup. *)
Lemma C4_witness :
  ∃ bundle : ContainerConfiguration,
    ConvertPodSpecToContainerConfiguration
      Sample.serviceAccountSecretName Sample.networkName Sample.pathJoin
      Sample.converterWithoutServiceAccount Sample.brokenPod ∅
    = ([CallGetSecret Sample.serviceAccountSecretName],
       Returns (bundle,
                Some (Errorf "unable to get secret k2d-serviceaccount"
                             Sample.notFound)))
    ∧ bundle = ContainerConfiguration_zero.
Proof.
  destruct (C4_atomic_on_failure
              Sample.serviceAccountSecretName Sample.networkName
              Sample.pathJoin Sample.converterWithoutServiceAccount
              Sample.brokenPod ∅) as (Hstep & Hwhole & Hlookup).
  destruct (Hlookup Sample.brokenContainer [] Sample.notFound eq_refl eq_refl)
    as [Hsteps Hconvert].
  exists ContainerConfiguration_zero.
  split; [exact (Hstep _ _ _ _ eq_refl Hsteps) |].
  exact (Hwhole _ _ _ Hconvert).
Defined.

(** A key that the config map [app-config] does not have gives the entry
    ["B="]. *)
Lemma C8_witness :
  handleValueFromEnvVars Sample.converter Sample.envOfMissingKey Sample.heap
  = (Heap_modifyConfig (λ c, set_Env (Env c ++ ["B="]) c)
       (Heap_call (CallGetConfigMap "app-config") Sample.heap),
     Ok tt).
Proof.
  destruct (C8_indirect_env_entry Sample.converter Sample.envOfMissingKey
              {| ConfigMapKeyRef :=
                   Some {| KeySelector_Name := "app-config"; Key := "B" |};
                 SecretKeyRef := None |}
              {| KeySelector_Name := "app-config"; Key := "B" |}
              Sample.heap eq_refl) as [HconfigMap _].
  destruct (HconfigMap eq_refl) as [_ Hfound].
  exact (Hfound {| ConfigMap_Name := "app-config";
                   ConfigMap_Data := {[ "A" := "1" ]} |} eq_refl eq_refl).
Defined.

(** A secret that the store does not have gives an error that names it. *)
Example handleValueFromEnvVars_missing_secret :
  (handleValueFromEnvVars Sample.converter
     {| EnvVar_Name := "TOKEN"; EnvVar_Value := EmptyString;
        ValueFrom :=
          Some {| ConfigMapKeyRef := None;
                  SecretKeyRef :=
                    Some {| KeySelector_Name := "absent"; Key := "token" |} |} |}
     Sample.heap).2
  = Err (Errorf "unable to get secret absent" Sample.notFound).
Proof. by vm_compute. Qed.

(** The volume backed by [db-creds], whose bind mappings the store cannot
    produce. *)
Lemma C3_witness :
  handleVolumeSource Sample.pathJoin Sample.converter
    Sample.credentials Sample.credentialsMount Sample.heap
  = (Heap_call (CallGetSecretBinds "db-creds")
       (Heap_call (CallGetSecret "db-creds") Sample.heap),
     Panic nil_dereference).
Proof.
  exact (C3_secret_binds_failure_panics Sample.pathJoin Sample.converter
           Sample.credentials Sample.credentialsMount
           {| SecretName := "db-creds" |}
           {| Secret_Name := "db-creds";
              Secret_Data := {[ "password" := "hunter2" ]} |}
           Sample.noBinds Sample.heap eq_refl eq_refl eq_refl eq_refl).
Defined.

(** The container asks for privileges, the pod has no pod-level security
    context: the conversion succeeds and the host configuration is not
    privileged. *)
Lemma C1_witness :
  ∃ trace bundle hostConfig',
    SecurityContext_Privileged
      <$> Container_SecurityContext Sample.privilegedContainer
    = Some (Some true)
    ∧ ConvertPodSpecToContainerConfiguration
        Sample.serviceAccountSecretName Sample.networkName Sample.pathJoin
        Sample.converter Sample.privilegedPod ∅
      = (trace, Returns (bundle, None))
    ∧ ContainerConfiguration_HostConfig bundle = Some hostConfig'
    ∧ Privileged hostConfig' = false.
Proof.
  assert (∃ trace bundle hostConfig',
            ConvertPodSpecToContainerConfiguration
              Sample.serviceAccountSecretName Sample.networkName
              Sample.pathJoin Sample.converter Sample.privilegedPod ∅
            = (trace, Returns (bundle, None))
            ∧ ContainerConfiguration_HostConfig bundle = Some hostConfig')
    as (trace & bundle & hostConfig' & Hconvert & Hhost).
  { vm_compute. eexists _, _, _. split; reflexivity. }
  exists trace, bundle, hostConfig'.
  split; [reflexivity |]. split; [exact Hconvert |]. split; [exact Hhost |].
  exact (C1_privileged_dropped_without_pod_context
           Sample.serviceAccountSecretName Sample.networkName Sample.pathJoin
           Sample.converter Sample.privilegedPod ∅ trace bundle hostConfig'
           eq_refl Hconvert Hhost).
Defined.

(** The conversion of a pod that mounts the volume backed by [db-creds]
    panics in its last step. *)
Example convert_secret_volume_panics :
  (ConvertPodSpecToContainerConfiguration
     Sample.serviceAccountSecretName Sample.networkName Sample.pathJoin
     Sample.converter Sample.credentialsPod ∅).2
  = Panics nil_dereference.
Proof. by vm_compute. Qed.

Example TrimPrefix_web : TrimPrefix "/web" "/" = "web".
Proof. reflexivity. Qed.

Example TrimPrefix_once : TrimPrefix "//web" "/" = "/web".
Proof. reflexivity. Qed.

Example TrimPrefix_kept : TrimPrefix "web" "/" = "web".
Proof. reflexivity. Qed.

Example Itoa_negative : Itoa (-5) = "-5".
Proof. by vm_compute. Qed.

Example NewPort_http : NewPort "TCP" 80 = Found "80/TCP".
Proof. by vm_compute. Qed.

Example NewPort_out_of_range : NewPort "TCP" 70000 = Failed (ErrorNew "invalid port '70000'").
Proof. by vm_compute. Qed.

(** The scenario with both layers: user ["1000:1000"], privileged. *)
Example setSecurityContext_scenario :
  let h := (setSecurityContext
              (Some {| RunAsUser := Some 1000; RunAsGroup := Some 1000 |})
              (Some {| SecurityContext_Privileged := Some true |})
              Sample.heap).1 in
  User (containerConfig h) = "1000:1000" ∧ Privileged (hostConfig h) = true.
Proof. by vm_compute. Qed.

(** Half a CPU requested, two CPUs at most. *)
Lemma C5_witness :
  let r := resourceRequirementsOf Sample.halfCPU in
  CPUShares r = 500
  ∧ MemoryReservation r = 67108864
  ∧ NanoCPUs r = 2000 * 1000000
  ∧ Memory r = 134217728
  ∧ ∃ l q, Requests Sample.halfCPU = Some l ∧ l !! ResourceCPU = Some q.
Proof.
  destruct (C5_resource_fields Sample.halfCPU Sample.heap)
    as (_ & Hshares & Hreservation & Hnano & Hmemory & Hpresent & _ & _ & _
        & Hexact).
  split; [exact Hshares |]. split; [exact Hreservation |].
  split.
  { rewrite Hnano.
    apply (Hexact {| MilliValue := 2000; Value := 2 |}). simpl. lia. }
  split; [exact Hmemory |].
  apply Hpresent. rewrite Hshares. discriminate.
Defined.

(** No request, and a CPU request of zero: the outputs are the same. *)
Lemma C5_counterexample :
  Requests Sample.noRequest = None
  ∧ Requests Sample.zeroRequest ≫= (λ l : ResourceList, l !! ResourceCPU)
    = Some {| MilliValue := 0; Value := 0 |}
  ∧ ¬ (setResourceRequirements Sample.noRequest Sample.heap
       ≠ setResourceRequirements Sample.zeroRequest Sample.heap).
Proof.
  split; [reflexivity |]. split; [reflexivity |].
  intros Hdiffer. apply Hdiffer. reflexivity.
Qed.

(** One published port. *)
Lemma C7_witness :
  ∃ (portMaps : gmap string (list PortBinding)) (exposed : gset string),
    setHostPorts [Sample.http8080] Sample.heap
    = (Heap_modifyHostConfig (set_PortBindings portMaps)
         (Heap_modifyConfig (set_ExposedPorts exposed) Sample.heap), Ok tt)
    ∧ portMaps !! "80/TCP"
      = Some [ {| HostIP := "0.0.0.0"; PortBinding_HostPort := "8080" |} ]
    ∧ "80/TCP" ∈ exposed.
Proof.
  assert (wellFormedPorts [Sample.http8080]) as Hwf.
  { unfold wellFormedPorts. repeat constructor; simpl; lia. }
  destruct (C7_host_ports [Sample.http8080] Sample.heap Hwf)
    as (portMaps & exposed & Hset & Hexposed & _ & _ & _ & Hlast & _).
  exists portMaps, exposed. split; [exact Hset |]. split.
  - apply (Hlast [] Sample.http8080 [] eq_refl); [discriminate |].
    intros later Hin. by apply elem_of_nil in Hin.
  - apply Hexposed. exists Sample.http8080.
    split; [by left |]. split; [discriminate | reflexivity].
Defined.

(** Two published ports of one key: the list is well formed, and the key is
    bound to the host port of the second only. *)
Lemma C7_counterexample :
  wellFormedPorts [Sample.http8080; Sample.http9090]
  ∧ PortBindings
      (hostConfig
         (setHostPorts [Sample.http8080; Sample.http9090] Sample.heap).1)
    !! portKey Sample.http8080
    = Some [ {| HostIP := "0.0.0.0"; PortBinding_HostPort := "9090" |} ]
  ∧ PortBindings
      (hostConfig
         (setHostPorts [Sample.http8080; Sample.http9090] Sample.heap).1)
    !! portKey Sample.http8080
    ≠ Some [hostBindingOf Sample.http8080].
Proof.
  split.
  { unfold wellFormedPorts. repeat constructor; simpl; lia. }
  split; [by vm_compute |].
  vm_compute. discriminate.
Qed.

(** A host-path volume mounted twice: one bind, for the first mount. *)
Lemma C2_witness :
  setVolumeMounts Sample.pathJoin Sample.converter
    [Sample.data] [Sample.mountA; Sample.mountB] Sample.heap
  = (Heap_modifyHostConfig (λ hc, set_Binds (Binds hc ++ ["/srv:/a"]) hc)
       Sample.heap, Ok tt).
Proof.
  destruct (C2_volume_mounts Sample.pathJoin Sample.converter
              [Sample.data] [Sample.mountA; Sample.mountB] Sample.heap)
    as (_ & _ & Hbinds & _).
  apply Hbinds. by repeat constructor.
Defined.

(** The second mount names the declared volume and gets no bind. *)
Lemma C2_counterexample :
  VolumeMount_Name Sample.mountB = Volume_Name Sample.data
  ∧ ¬ ("/srv:/b"
       ∈ Binds (hostConfig
                  (setVolumeMounts Sample.pathJoin Sample.converter
                     [Sample.data] [Sample.mountA; Sample.mountB]
                     Sample.heap).1)).
Proof.
  split; [reflexivity |].
  vm_compute. intros Hin. apply elem_of_cons in Hin as [Heq | Hin].
  - discriminate Heq.
  - by apply elem_of_nil in Hin.
Qed.

(* ===================================================================== *)
(** ** The further properties on the sample inputs *)
(* ===================================================================== *)

(** The empty restart policy means always. *)
Lemma setRestartPolicy_three_names_witness :
  restartPolicyName EmptyString = "always".
Proof.
  destruct (setRestartPolicy_three_names EmptyString Sample.heap)
    as (_ & _ & _ & _ & Halways).
  apply Halways. split; discriminate.
Defined.

(** A user without a group leaves the user of the configuration as it is. *)
Lemma setSecurityContext_changes_witness :
  userAfter (Some Scenario.userOnly) (User (containerConfig Sample.heap))
  = User (containerConfig Sample.heap).
Proof.
  destruct (setSecurityContext_changes (Some Scenario.userOnly) None Sample.heap)
    as (_ & Huser & _).
  apply (Huser Scenario.userOnly eq_refl). by right.
Defined.

(** Container port 70000 on host port 8080. *)
Lemma setHostPorts_fails_on_unparseable_witness :
  ∃ err, setHostPorts [Scenario.unparseable] Sample.heap
         = (Sample.heap, Err err).
Proof.
  destruct (setHostPorts_fails_on_unparseable [Scenario.unparseable] Sample.heap)
    as (Hfails & _).
  apply Hfails. intros Hwf. apply Forall_cons in Hwf as [Hport _].
  simpl in Hport. assert (8080 ≠ 0) as Hhost by discriminate.
  specialize (Hport Hhost). lia.
Defined.

(** [app-config] as an env-from entry that names a secret as well. *)
Lemma handleValueFromEnvFromSource_expands_witness :
  handleValueFromEnvFromSource Sample.converter Scenario.envFromAppConfig
    Sample.heap
  = (Heap_appendEnv ["A=1"]
       (Heap_call (CallGetConfigMap "app-config") Sample.heap), Ok tt).
Proof.
  destruct (handleValueFromEnvFromSource_expands Sample.converter
              Scenario.envFromAppConfig Sample.heap) as (HconfigMap & _).
  destruct (HconfigMap "app-config"
              {| ConfigMap_Name := "app-config";
                 ConfigMap_Data := {[ "A" := "1" ]} |} eq_refl eq_refl)
    as (Heq & _).
  rewrite Heq. reflexivity.
Defined.

(** An env-from entry for a config map the store does not have. *)
Lemma handleValueFromEnvFromSource_fails_witness :
  handleValueFromEnvFromSource Sample.converter Scenario.envFromMissing
    Sample.heap
  = (Heap_call (CallGetConfigMap "missing") Sample.heap,
     Err (Errorf "unable to get configmap missing" Sample.notFound)).
Proof.
  destruct (handleValueFromEnvFromSource_fails Sample.converter
              Scenario.envFromMissing Sample.heap) as (Hfails & _).
  exact (Hfails "missing" Sample.notFound eq_refl eq_refl).
Defined.

(** The key [A] of [app-config], read into [SETTING]. *)
Lemma handleValueFromEnvVars_reads_key_witness :
  handleValueFromEnvVars Sample.converter Scenario.envOfKeyA Sample.heap
  = (Heap_appendEnv ["SETTING=1"]
       (Heap_call (CallGetConfigMap "app-config") Sample.heap), Ok tt).
Proof.
  destruct (handleValueFromEnvVars_reads_key Sample.converter
              Scenario.envOfKeyA
              {| ConfigMapKeyRef :=
                   Some {| KeySelector_Name := "app-config"; Key := "A" |};
                 SecretKeyRef :=
                   Some {| KeySelector_Name := "db-creds";
                           Key := "password" |} |}
              Sample.heap eq_refl) as (HconfigMap & _).
  exact (HconfigMap {| KeySelector_Name := "app-config"; Key := "A" |}
           {| ConfigMap_Name := "app-config";
              ConfigMap_Data := {[ "A" := "1" ]} |}
           "1" eq_refl eq_refl eq_refl).
Defined.

(** Two literal entries. *)
Lemma setEnvVars_literals_witness :
  setEnvVars Sample.converter [Scenario.literalA; Scenario.literalB] []
    Sample.heap
  = (Heap_appendEnv ["MODE=fast"; "LEVEL=3"] Sample.heap, Ok tt).
Proof.
  destruct (setEnvVars_literals Sample.converter
              [Scenario.literalA; Scenario.literalB] [] Sample.heap)
    as (_ & Heq).
  - by repeat constructor.
  - exact Heq.
Defined.

(** A literal entry, an entry that fails, and entries that are never
    reached. *)
Lemma setEnvVars_stops_at_failure_witness :
  setEnvVars Sample.converter
    ([Scenario.literalA] ++ Scenario.envOfMissingConfigMap
                         :: [Scenario.literalB])
    [Scenario.envFromAppConfig] Sample.heap
  = (Heap_call (CallGetConfigMap "missing")
       (Heap_appendEnv ["MODE=fast"] Sample.heap),
     Err (Errorf "unable to get configmap missing" Sample.notFound)).
Proof.
  apply (setEnvVars_stops_at_failure Sample.converter
           [Scenario.literalA] [Scenario.literalB]
           Scenario.envOfMissingConfigMap
           {| ConfigMapKeyRef :=
                Some {| KeySelector_Name := "missing"; Key := "A" |};
              SecretKeyRef := None |}
           {| KeySelector_Name := "missing"; Key := "A" |}
           Sample.notFound [Scenario.envFromAppConfig] Sample.heap);
    try reflexivity.
  by repeat constructor.
Defined.

(** The token of the service account. *)
Lemma setServiceAccountTokenAndCACert_binds_witness :
  setServiceAccountTokenAndCACert Sample.serviceAccountSecretName
    Sample.pathJoin Sample.converter Sample.heap
  = (Heap_appendBinds
       ["/var/lib/k2d/secrets/k2d-serviceaccount-k2dsec-token:/var/run/secrets/kubernetes.io/serviceaccount/token"]
       (Heap_call (CallGetSecretBinds "k2d-serviceaccount")
          (Heap_call (CallGetSecret "k2d-serviceaccount") Sample.heap)),
     Ok tt).
Proof.
  destruct (setServiceAccountTokenAndCACert_binds
              Sample.serviceAccountSecretName Sample.pathJoin Sample.converter
              {| Secret_Name := "k2d-serviceaccount"; Secret_Data := ∅ |}
              Sample.heap eq_refl) as (Hfound & _).
  destruct (Hfound
              {[ "token" := "/var/lib/k2d/secrets/k2d-serviceaccount-k2dsec-token" ]}
              eq_refl) as (Heq & _).
  rewrite Heq. reflexivity.
Defined.

(** The volume of [app-config], which also names a secret and a host
    path. *)
Lemma handleVolumeSource_store_backed_witness :
  handleVolumeSource Sample.pathJoin Scenario.converter
    Scenario.appConfig Scenario.appConfigMount Sample.heap
  = (Heap_appendBinds ["/var/lib/k2d/configmaps/app-config-k2dcm-A:/etc/app/A"]
       (Heap_call (CallGetConfigMapBinds "app-config")
          (Heap_call (CallGetConfigMap "app-config") Sample.heap)),
     Ok tt).
Proof.
  destruct (handleVolumeSource_store_backed Sample.pathJoin Scenario.converter
              Scenario.appConfig Scenario.appConfigMount Sample.heap)
    as (HconfigMap & _).
  rewrite (HconfigMap {| ConfigMapVolumeSource_Name := "app-config" |}
             {| ConfigMap_Name := "app-config";
                ConfigMap_Data := {[ "A" := "1" ]} |}
             {[ "A" := "/var/lib/k2d/configmaps/app-config-k2dcm-A" ]}
             eq_refl eq_refl eq_refl).
  reflexivity.
Defined.

(** A volume backed by a config map the store does not have. *)
Lemma handleVolumeSource_errors_witness :
  handleVolumeSource Sample.pathJoin Sample.converter
    Scenario.missingConfig Scenario.missingConfigMount Sample.heap
  = (Heap_call (CallGetConfigMap "missing") Sample.heap,
     Err (Errorf "unable to get configmap missing" Sample.notFound)).
Proof.
  destruct (handleVolumeSource_errors Sample.pathJoin Sample.converter
              Scenario.missingConfig Scenario.missingConfigMount Sample.heap)
    as (Hlookup & _).
  exact (Hlookup {| ConfigMapVolumeSource_Name := "missing" |}
           Sample.notFound eq_refl eq_refl).
Defined.

(** The host-path volume at its first mount. *)
Lemma handleVolumeSource_without_store_witness :
  handleVolumeSource Sample.pathJoin Sample.converter
    Sample.data Sample.mountA Sample.heap
  = (Heap_appendBinds ["/srv:/a"] Sample.heap, Ok tt).
Proof.
  destruct (handleVolumeSource_without_store Sample.pathJoin Sample.converter
              Sample.data Sample.mountA Sample.heap eq_refl eq_refl)
    as (HhostPath & _).
  exact (HhostPath {| Path := "/srv" |} eq_refl).
Defined.

(** A host-path volume, a volume that fails, and a volume that is never
    reached. *)
Lemma setVolumeMounts_stops_at_failure_witness :
  setVolumeMounts Sample.pathJoin Scenario.converter
    ([Sample.data] ++ Scenario.missingConfig :: [Scenario.appConfig])
    [Sample.mountA; Scenario.missingConfigMount; Scenario.appConfigMount]
    Sample.heap
  = (Heap_call (CallGetConfigMap "missing")
       (Heap_appendBinds ["/srv:/a"] Sample.heap),
     Err (Errorf "unable to get configmap missing" Sample.notFound)).
Proof.
  rewrite (setVolumeMounts_stops_at_failure Sample.pathJoin Scenario.converter
             [Sample.data] [Scenario.appConfig] Scenario.missingConfig
             [Sample.mountA; Scenario.missingConfigMount;
              Scenario.appConfigMount]
             Scenario.missingConfigMount
             {| ConfigMapVolumeSource_Name := "missing" |}
             Sample.notFound Sample.heap);
    try reflexivity.
  by repeat constructor.
Defined.

(** Even the pod whose every step would fail starts with the lookup. *)
Lemma conversion_first_looks_up_service_account_witness :
  ∃ later,
    (ConvertPodSpecToContainerConfiguration
       Sample.serviceAccountSecretName Sample.networkName Sample.pathJoin
       Sample.converter Sample.brokenPod ∅).1
    = CallGetSecret "k2d-serviceaccount" :: later.
Proof.
  exact (conversion_first_looks_up_service_account
           Sample.serviceAccountSecretName Sample.networkName Sample.pathJoin
           Sample.converter Sample.brokenPod ∅ Sample.brokenContainer []
           eq_refl).
Defined.

(** The plain pod, converted. *)
Lemma conversion_keeps_the_seed_witness :
  ∃ trace bundle config more,
    ConvertPodSpecToContainerConfiguration
      Sample.serviceAccountSecretName Sample.networkName Sample.pathJoin
      Sample.converter Scenario.plainPod {[ "app" := "web" ]}
    = (trace, Returns (bundle, None))
    ∧ ContainerConfig bundle = Some config
    ∧ Config_Image config = "nginx"
    ∧ Config_Labels config = {[ "app" := "web" ]}
    ∧ Env config
      = "KUBERNETES_SERVICE_HOST=10.0.0.1"
        :: "KUBERNETES_SERVICE_PORT=6443" :: more.
Proof.
  assert (∃ trace bundle,
            ConvertPodSpecToContainerConfiguration
              Sample.serviceAccountSecretName Sample.networkName
              Sample.pathJoin Sample.converter Scenario.plainPod
              {[ "app" := "web" ]}
            = (trace, Returns (bundle, None)))
    as (trace & bundle & Hconvert).
  { vm_compute. eexists _, _. reflexivity. }
  destruct (conversion_keeps_the_seed
              Sample.serviceAccountSecretName Sample.networkName
              Sample.pathJoin Sample.converter Scenario.plainPod
              {[ "app" := "web" ]} trace bundle Hconvert)
    as (containerSpec & others & config & hostConfig' & more
        & Hcs & -> & Himage & Hlabels & Henv & _).
  injection Hcs as <- <-.
  eexists trace, _, config, more. split; [exact Hconvert |].
  by repeat split.
Defined.

(** The plain pod: the bundle it is converted to. *)
Lemma conversion_of_a_plain_pod_witness :
  ∃ bundle config hostConfig',
    ConvertPodSpecToContainerConfiguration
      Sample.serviceAccountSecretName Sample.networkName Sample.pathJoin
      Sample.converter Scenario.plainPod ∅
    = ([CallGetSecret "k2d-serviceaccount";
        CallGetSecretBinds "k2d-serviceaccount"],
       Returns (bundle, None))
    ∧ ContainerConfig bundle = Some config
    ∧ ContainerConfiguration_HostConfig bundle = Some hostConfig'
    ∧ Env config
      = ["KUBERNETES_SERVICE_HOST=10.0.0.1"; "KUBERNETES_SERVICE_PORT=6443";
         "MODE=fast"; "LEVEL=3"]
    ∧ Entrypoint config = ["nginx"]
    ∧ Cmd config = ["-g"; "daemon off;"]
    ∧ User config = "1000:1000"
    ∧ Binds hostConfig'
      = ["/var/lib/k2d/secrets/k2d-serviceaccount-k2dsec-token:/var/run/secrets/kubernetes.io/serviceaccount/token";
         "/srv:/a"]
    ∧ Privileged hostConfig' = true
    ∧ RestartPolicy_Name (HostConfig_RestartPolicy hostConfig') = "on-failure"
    ∧ NanoCPUs (HostConfig_Resources hostConfig') = 2000000000.
Proof.
  destruct (conversion_of_a_plain_pod
              Sample.serviceAccountSecretName Sample.networkName
              Sample.pathJoin Sample.converter Scenario.plainPod ∅
              Scenario.plainContainer []
              {| Secret_Name := "k2d-serviceaccount"; Secret_Data := ∅ |}
              {[ "token" := "/var/lib/k2d/secrets/k2d-serviceaccount-k2dsec-token" ]}
              eq_refl eq_refl eq_refl)
    as (portMaps & exposed & _ & Hconvert).
  - unfold wellFormedPorts. repeat constructor; simpl; lia.
  - by repeat constructor.
  - reflexivity.
  - by repeat constructor.
  - eexists _, _, _. split; [exact Hconvert |].
    split; [reflexivity |]. split; [reflexivity |].
    repeat split; by vm_compute.
Defined.

(** The plain pod: what the field mappers give is in the bundle. *)
Lemma conversion_applies_the_field_mappers_witness :
  ∃ trace bundle config hostConfig',
    ConvertPodSpecToContainerConfiguration
      Sample.serviceAccountSecretName Sample.networkName Sample.pathJoin
      Sample.converter Scenario.plainPod ∅
    = (trace, Returns (bundle, None))
    ∧ ContainerConfig bundle = Some config
    ∧ ContainerConfiguration_HostConfig bundle = Some hostConfig'
    ∧ Entrypoint config = ["nginx"]
    ∧ User config = "1000:1000"
    ∧ Privileged hostConfig' = true
    ∧ HostConfig_RestartPolicy hostConfig'
      = {| RestartPolicy_Name := "on-failure" |}.
Proof.
  assert (∃ trace bundle,
            ConvertPodSpecToContainerConfiguration
              Sample.serviceAccountSecretName Sample.networkName
              Sample.pathJoin Sample.converter Scenario.plainPod ∅
            = (trace, Returns (bundle, None)))
    as (trace & bundle & Hconvert).
  { vm_compute. eexists _, _. reflexivity. }
  destruct (conversion_applies_the_field_mappers
              Sample.serviceAccountSecretName Sample.networkName
              Sample.pathJoin Sample.converter Scenario.plainPod ∅
              trace bundle Hconvert)
    as (containerSpec & others & config & hostConfig' & portMaps & exposed
        & Hcs & Hconfig & Hhost & _ & _ & _ & _ & Hentry & _ & Huser
        & Hrestart & Hprivileged & _).
  injection Hcs as <- <-.
  exists trace, bundle, config, hostConfig'.
  by repeat split.
Defined.

(** The pod with the unparseable port, with the service account in place. *)
Lemma conversion_fails_on_unparseable_port_witness :
  ∃ err,
    ConvertPodSpecToContainerConfiguration
      Sample.serviceAccountSecretName Sample.networkName Sample.pathJoin
      Sample.converter Sample.brokenPod ∅
    = ([CallGetSecret "k2d-serviceaccount";
        CallGetSecretBinds "k2d-serviceaccount"],
       Returns (ContainerConfiguration_zero, Some err)).
Proof.
  destruct (conversion_fails_on_unparseable_port
              Sample.serviceAccountSecretName Sample.networkName
              Sample.pathJoin Sample.converter Sample.brokenPod ∅
              Sample.brokenContainer []
              {| Secret_Name := "k2d-serviceaccount"; Secret_Data := ∅ |}
              {[ "token" := "/var/lib/k2d/secrets/k2d-serviceaccount-k2dsec-token" ]}
              eq_refl eq_refl eq_refl)
    as (err & _ & Hconvert).
  - intros Hwf. apply Forall_cons in Hwf as [Hport _].
    simpl in Hport. assert (8080 ≠ 0) as Hhost by discriminate.
    specialize (Hport Hhost). lia.
  - by exists err.
Defined.

(** The container [/web], which has no last-applied label. *)
Lemma ConvertContainerToPod_metadata_witness :
  ∃ pod,
    ConvertContainerToPod Sample.lastAppliedKey (Sample.web "exited")
    = Returns pod
    ∧ Annotations (Pod_ObjectMeta pod)
        !! "kubectl.kubernetes.io/last-applied-configuration"
      = Some EmptyString
    ∧ Container_Image <$> Containers (Pod_Spec pod) = ["nginx"].
Proof.
  destruct (ConvertContainerToPod_metadata Sample.lastAppliedKey
              (Sample.web "exited") "/web" [] eq_refl)
    as (pod & status & Hpod & _ & _ & _ & Hannotation & _ & Himage & _).
  exists pod. by repeat split.
Defined.

(** A request and a limit of ephemeral storage beside those of
    [Sample.halfCPU]. *)
Lemma setResourceRequirements_ignores_other_names_witness :
  resourceRequirementsOf
    {| Limits :=
         Some (<["ephemeral-storage" := {| MilliValue := 1000; Value := 1 |}]>
                 {[ ResourceCPU := {| MilliValue := 2000; Value := 2 |} ]});
       Requests :=
         Some (<["ephemeral-storage" := {| MilliValue := 1000; Value := 1 |}]>
                 {[ ResourceCPU := {| MilliValue := 500; Value := 1 |} ]}) |}
  = resourceRequirementsOf
      {| Limits := Some {[ ResourceCPU := {| MilliValue := 2000; Value := 2 |} ]};
         Requests :=
           Some {[ ResourceCPU := {| MilliValue := 500; Value := 1 |} ]} |}.
Proof.
  destruct (setResourceRequirements_ignores_other_names
              {[ ResourceCPU := {| MilliValue := 500; Value := 1 |} ]}
              {[ ResourceCPU := {| MilliValue := 2000; Value := 2 |} ]}
              "ephemeral-storage" {| MilliValue := 1000; Value := 1 |}
              Sample.heap) as (Heq & _); [discriminate | discriminate |].
  exact Heq.
Defined.

(** Under [/data], with a directory for the secrets that cannot be
    created: the directory of the config maps is there, no store is
    returned. *)
Lemma NewFileSystemStore_creates_both_witness :
  NewFileSystemStore Sample.pathJoin (list string) Scenario.createDir
    {| DataPath := "/data" |} []
  = (["/data/configmaps"],
     (None, Some (Errorf "unable to create directory secrets"
                         (ErrorNew "permission denied")))).
Proof.
  destruct (NewFileSystemStore_creates_both Sample.pathJoin (list string)
              Scenario.createDir {| DataPath := "/data" |} [])
    as (_ & Hsecond & _).
  exact (Hsecond ["/data/configmaps"] ["/data/configmaps"]
           (ErrorNew "permission denied") eq_refl eq_refl).
Defined.
